(** * Dust sphere: the particle layout, the frame update and the self-check

    A shallow embedding of [src/dust_sphere_animation.jsx].  The component
    builds three typed arrays (positions, normals, per-particle random
    scalars) on a Fibonacci sphere, then on every animation frame moves each
    particle along its normal and rotates the cloud.

    The arithmetic of the source is kept behind an interface ([JSNumber]):
    every definition of the model is written once, over any number type that
    offers the operations the source calls.  Structural facts (array sizes,
    which buffer a frame writes, what pausing does) are proved for every
    such arithmetic.  Geometric facts (unit normals, collinearity, bounds,
    periodicity) are proved for the real numbers, that is, for the exact
    values that the source's double-precision expressions approximate.

    Where the value that a [Float32Array] holds matters (the range of the
    stored random scalars, the distance of the stored positions), the
    operations stay exact and the stores round to binary32
    ([Float32Number]).  Where the component outlives one run of its effect
    (the self-check after a property change), the runs, the objects they
    allocate and the state React keeps are modelled in [Component]. *)

From Stdlib Require Import Reals QArith Qreals Lra Lia Psatz ZArith String Ascii DecimalString.
From stdpp Require Import base list.

Set Default Proof Using "Type".

(* ===================================================================== *)
(** * The numbers of the source                                           *)
(* ===================================================================== *)

(** What the source asks of a JavaScript Number: literals, the four
    arithmetic operators, the [Math] functions it calls, and the conversion
    that a [Float32Array] applies when an element is stored. *)
Class JSNumber (num : Type) := {
  lit : Q -> num;                 (* a numeric literal such as 0.005 *)
  of_nat : nat -> num;            (* an integer loop counter used as a number *)
  add : num -> num -> num;
  sub : num -> num -> num;
  mul : num -> num -> num;
  div : num -> num -> num;
  Math_sin : num -> num;
  Math_cos : num -> num;
  Math_acos : num -> num;
  Math_sqrt : num -> num;
  Math_PI : num;
  NaN : num;                      (* what reading past the end of an array yields in arithmetic *)
  fround : num -> num;            (* element conversion of a Float32Array store *)
}.

Arguments lit {num _} _%_Q.

Declare Scope js_scope.
Delimit Scope js_scope with js.
Notation "x + y" := (add x y) : js_scope.
Notation "x - y" := (sub x y) : js_scope.
Notation "x * y" := (mul x y) : js_scope.
Notation "x / y" := (div x y) : js_scope.

(** A JavaScript [for (let i = 0; i < n; i++) body] over a state [S]. *)
(** A [Float32Array] is a fixed-length sequence of numbers. *)
Abbreviation Float32Array num := (list num) (only parsing).

Definition for_loop {S : Type} (n : nat) (body : nat -> S -> S) (s : S) : S :=
  foldl (fun acc i => body i acc) s (seq 0 n).

(** Template-literal conversions used by the self-check's report. *)
Definition string_of_nat (n : nat) : string :=
  NilEmpty.string_of_uint (Nat.to_uint n).

Definition string_of_bool (b : bool) : string :=
  if b then "true"%string else "false"%string.

Definition string_of_nullable (o : option nat) : string :=
  match o with
  | Some n => string_of_nat n
  | None => "null"%string
  end.

Definition newline : string := String (ascii_of_nat 10) EmptyString.

Section Model.

Context {num : Type} `{JSNumber num}.

(* --------------------------------------------------------------------- *)
(** ** Typed arrays and three.js attributes                               *)
(* --------------------------------------------------------------------- *)

(** Typed arrays: fixed length, zero filled when created.  A store
    converts the value with [fround] and is ignored past the end; a read
    past the end yields [undefined], which arithmetic turns into [NaN]. *)
Definition new_Float32Array (n : nat) : Float32Array num := replicate n (lit 0).

Definition get (a : Float32Array num) (i : nat) : num :=
  match a !! i with
  | Some v => v
  | None => NaN
  end.

Definition set (a : Float32Array num) (i : nat) (v : num) : Float32Array num :=
  <[i := fround v]> a.

(** [THREE.BufferAttribute(array, itemSize)]; three.js computes
    [count = array.length / itemSize]. *)
Record BufferAttribute : Type := {
  array : Float32Array num;
  itemSize : nat;
  needsUpdate : bool;
}.

Definition new_BufferAttribute (a : Float32Array num) (size : nat) : BufferAttribute :=
  {| array := a; itemSize := size; needsUpdate := false |}.

Definition count (attr : BufferAttribute) : nat :=
  (length (array attr) / itemSize attr)%nat.

(** [geometry.attributes] *)
Record BufferGeometry : Type := {
  position : BufferAttribute;
  normalVec : BufferAttribute;
  aRandom : BufferAttribute;
}.

(** [THREE.Points]: the geometry and the two Euler angles the source sets. *)
Record Points : Type := {
  geometry : BufferGeometry;
  rotation_x : num;
  rotation_y : num;
}.

(* --------------------------------------------------------------------- *)
(** ** Component properties                                               *)
(* --------------------------------------------------------------------- *)

Record Props : Type := {
  particleCount : nat;
  baseRadius : num;
  pulseAmplitude : num;
  pulseSpeed : num;
  rotationSpeed : num;
}.

(* --------------------------------------------------------------------- *)
(** ** Building the particle buffers (source lines 78-100)                *)
(* --------------------------------------------------------------------- *)

(** The state of the layout loop: the three arrays and the number of calls
    made so far to [Math.random].  The values that [Math.random] returns
    are given by [random]: its k-th call returns [random k]. *)
Record Buffers : Type := {
  positions : Float32Array num;
  normals : Float32Array num;
  randoms : Float32Array num;
  calls : nat;
}.

Definition phi_of (p : Props) (i : nat) : num :=
  Math_acos (lit 1 - lit 2 * (of_nat i + lit 0.5) / of_nat (particleCount p))%js.

Definition theta_of (i : nat) : num :=
  (Math_PI * (lit 1 + Math_sqrt (lit 5)) * (of_nat i + lit 0.5))%js.

(** [const x], [const y], [const z]: the components of the normal. *)
Definition x_of (p : Props) (i : nat) : num :=
  (Math_sin (phi_of p i) * Math_cos (theta_of i))%js.

Definition y_of (p : Props) (i : nat) : num :=
  (Math_sin (phi_of p i) * Math_sin (theta_of i))%js.

Definition z_of (p : Props) (i : nat) : num :=
  Math_cos (phi_of p i).

(** [const jitter], from the value [u] that [Math.random] returned. *)
Definition jitter_of (u : num) : num :=
  ((u - lit 0.5) * lit 0.02)%js.

Definition layout_body (p : Props) (random : nat -> num) (i : nat) (b : Buffers) : Buffers :=
  let i3 := (i * 3)%nat in
  let x := x_of p i in
  let y := y_of p i in
  let z := z_of p i in
  let normals := set (normals b) i3 x in
  let normals := set normals (i3 + 1) y in
  let normals := set normals (i3 + 2) z in
  let jitter := jitter_of (random (calls b)) in
  let positions := set (positions b) i3 (x * (baseRadius p + jitter))%js in
  let positions := set positions (i3 + 1) (y * (baseRadius p + jitter))%js in
  let positions := set positions (i3 + 2) (z * (baseRadius p + jitter))%js in
  let randoms := set (randoms b) i (random (S (calls b))) in
  {| positions := positions; normals := normals; randoms := randoms;
     calls := S (S (calls b)) |}.

Definition layout (p : Props) (random : nat -> num) : Buffers :=
  for_loop (particleCount p) (layout_body p random)
    {| positions := new_Float32Array (particleCount p * 3);
       normals := new_Float32Array (particleCount p * 3);
       randoms := new_Float32Array (particleCount p);
       calls := 0 |}.

(** What the layout loop has established after [k] iterations. *)
Definition layout_inv (p : Props) (random : nat -> num) (k : nat) (b : Buffers) : Prop :=
  length (positions b) = particleCount p * 3 /\
  length (normals b) = particleCount p * 3 /\
  length (randoms b) = particleCount p /\
  calls b = 2 * k /\
  forall i, i < k ->
    get (normals b) (i * 3) = fround (x_of p i) /\
    get (normals b) (i * 3 + 1) = fround (y_of p i) /\
    get (normals b) (i * 3 + 2) = fround (z_of p i) /\
    get (positions b) (i * 3) =
      fround (x_of p i * (baseRadius p + jitter_of (random (2 * i)%nat)))%js /\
    get (positions b) (i * 3 + 1) =
      fround (y_of p i * (baseRadius p + jitter_of (random (2 * i)%nat)))%js /\
    get (positions b) (i * 3 + 2) =
      fround (z_of p i * (baseRadius p + jitter_of (random (2 * i)%nat)))%js /\
    get (randoms b) i = fround (random (2 * i + 1)).

Definition build_geometry (b : Buffers) : BufferGeometry :=
  {| position := new_BufferAttribute (positions b) 3;
     normalVec := new_BufferAttribute (normals b) 3;
     aRandom := new_BufferAttribute (randoms b) 1 |}.

(* --------------------------------------------------------------------- *)
(** ** The frame updater (source lines 140-159)                           *)
(* --------------------------------------------------------------------- *)

(** [const pulse] *)
Definition pulse_of (p : Props) (elapsed : num) : num :=
  (Math_sin (elapsed * pulseSpeed p) * pulseAmplitude p)%js.

(** [const r], the scale factor of particle [i] *)
Definition r_of (rnd : Float32Array num) (i : nat) : num :=
  (get rnd i * lit 0.8 + lit 0.2)%js.

(** [const localPulse] *)
Definition localPulse_of (p : Props) (elapsed : num) (rnd : Float32Array num) (i : nat) : num :=
  (pulse_of p elapsed * r_of rnd i)%js.

(** [const noise] *)
Definition noise_of (elapsed : num) (rnd : Float32Array num) (i : nat) : num :=
  (Math_sin (elapsed * (lit 0.7 + r_of rnd i * lit 2.0) + of_nat i) * lit 0.005)%js.

(** [const radius] *)
Definition radius_of (p : Props) (elapsed : num) (rnd : Float32Array num) (i : nat) : num :=
  (baseRadius p + localPulse_of p elapsed rnd i)%js.

(** One iteration of the update loop.  [pos], [nrm] and [rnd] are three
    distinct arrays, so the stores into [pos] do not change what the same
    iteration reads from [nrm] and [rnd]. *)
Definition update_body (p : Props) (elapsed : num) (nrm rnd : Float32Array num)
    (i : nat) (pos : Float32Array num) : Float32Array num :=
  let i3 := (i * 3)%nat in
  let radius := radius_of p elapsed rnd i in
  let noise := noise_of elapsed rnd i in
  let pos := set pos i3 (get nrm i3 * (radius + noise))%js in
  let pos := set pos (i3 + 1) (get nrm (i3 + 1) * (radius + noise))%js in
  set pos (i3 + 2) (get nrm (i3 + 2) * (radius + noise))%js.

(** The value that one frame stores at component [c] of particle [i]. *)
Definition stored (p : Props) (elapsed : num) (nrm rnd : Float32Array num) (i c : nat) : num :=
  fround (get nrm (i * 3 + c)%nat * (radius_of p elapsed rnd i + noise_of elapsed rnd i))%js.

(** What the update loop has established after [k] iterations. *)
Definition update_inv (p : Props) (elapsed : num) (nrm rnd : Float32Array num)
    (len k : nat) (pos : Float32Array num) : Prop :=
  length pos = len /\
  forall i c, i < k -> c < 3 -> get pos (i * 3 + c) = stored p elapsed nrm rnd i c.

(** The body of [if (runningRef.current) { ... }]. *)
Definition update_positions (p : Props) (elapsed : num) (g : BufferGeometry) : BufferGeometry :=
  let pos := array (position g) in
  let nrm := array (normalVec g) in
  let rnd := array (aRandom g) in
  let pos := for_loop (particleCount p) (update_body p elapsed nrm rnd) pos in
  {| position := {| array := pos; itemSize := itemSize (position g); needsUpdate := true |};
     normalVec := normalVec g;
     aRandom := aRandom g |}.

(* --------------------------------------------------------------------- *)
(** ** One activation of the component                                    *)
(* --------------------------------------------------------------------- *)

(** One activation allocates exactly one [Points] object, which owns the one
    geometry.  A reference held by the component is therefore either [null]
    or [handle], the reference to that object; it is resolved in the
    session that owns the object, so every holder sees the same buffers. *)
Inductive Ref : Type := null | handle.

Definition truthy (r : Ref) : bool :=
  match r with
  | handle => true
  | null => false
  end.

(** The object passed to [setReadyInfo]. *)
Record ReadyInfo : Type := {
  ready_particleCount : nat;
  ready_geometry : Ref;
  ready_points : Ref;
}.

Record Session : Type := {
  props : Props;
  startTime : num;               (* const startTime = performance.now() *)
  points : Points;               (* the Points object in the scene *)
  pointsRef : Ref;               (* pointsRef.current *)
  runningRef : bool;             (* runningRef.current *)
  running : bool;                (* the React state [running] *)
  readyInfo : option ReadyInfo;  (* the React state [readyInfo], null at first *)
}.

(** The first activation of a mounted component: the effect of lines
    44-132, run with the clock reading [now] on the initial React state
    ([useState(true)], [useRef(true)], [useState(null)]).  The buffers are
    built, the Points object is created and published in [pointsRef], and
    the readiness timer is scheduled (it fires later, as the event
    [ReadyTimer]).  The effect of lines 40-42 copies [running] into
    [runningRef], which already holds the same value. *)
Definition effect (p : Props) (random : nat -> num) (now : num) : Session :=
  {| props := p;
     startTime := now;
     points := {| geometry := build_geometry (layout p random);
                  rotation_x := lit 0;
                  rotation_y := lit 0 |};
     pointsRef := handle;
     runningRef := true;
     running := true;
     readyInfo := None |}.

(** [const elapsed] *)
Definition elapsed_of (s : Session) (now : num) : num :=
  ((now - startTime s) / lit 1000)%js.

(** [animate], called with the clock reading [now].  Scheduling the next
    frame, the camera controls and the renderer do not touch the modelled
    state. *)
Definition animate (s : Session) (now : num) : Session :=
  let elapsed := elapsed_of s now in
  let pts := points s in
  let pts :=
    if runningRef s
    then {| geometry := update_positions (props s) elapsed (geometry pts);
            rotation_x := rotation_x pts;
            rotation_y := rotation_y pts |}
    else pts in
  let pts :=
    match pointsRef s with
    | handle => {| geometry := geometry pts;
                   rotation_x := (elapsed * (rotationSpeed (props s) * lit 0.18))%js;
                   rotation_y := (elapsed * rotationSpeed (props s))%js |}
    | null => pts
    end in
  {| props := props s; startTime := startTime s; points := pts;
     pointsRef := pointsRef s; runningRef := runningRef s;
     running := running s; readyInfo := readyInfo s |}.

(** [toggleRunning]: the state updater flips [running] and mirrors the new
    value into [runningRef]. *)
Definition toggleRunning (s : Session) : Session :=
  {| props := props s; startTime := startTime s; points := points s;
     pointsRef := pointsRef s;
     runningRef := negb (running s);
     running := negb (running s);
     readyInfo := readyInfo s |}.

(** The callback of [setTimeout(..., 0)] (lines 124-132). *)
Definition publish_ready (s : Session) : Session :=
  {| props := props s; startTime := startTime s; points := points s;
     pointsRef := pointsRef s; runningRef := runningRef s;
     running := running s;
     readyInfo := Some {| ready_particleCount := particleCount (props s);
                          ready_geometry := handle;
                          ready_points := handle |} |}.

(** What can happen to a mounted component. *)
Inductive Event : Type :=
  | Frame (now : num)      (* an animation frame runs [animate] *)
  | ToggleRunning          (* the operator presses Pause / Play *)
  | ReadyTimer.            (* the readiness timer fires *)

Definition handle_event (s : Session) (e : Event) : Session :=
  match e with
  | Frame now => animate s now
  | ToggleRunning => toggleRunning s
  | ReadyTimer => publish_ready s
  end.

Definition run (s : Session) (events : list Event) : Session :=
  foldl handle_event s events.

(** Mounting: the effect, then the first call [animate()] of line 171 at
    the clock reading [now1]. *)
Definition mount (p : Props) (random : nat -> num) (now0 now1 : num) : Session :=
  animate (effect p random now0) now1.

(* --------------------------------------------------------------------- *)
(** ** The self-check (source lines 212-224)                              *)
(* --------------------------------------------------------------------- *)

Definition not_ready_message : string :=
  "Not ready yet — wait a moment after mount"%string.

(** [geom && geom.attributes && geom.attributes.position] *)
Definition posAttr_of (s : Session) (info : ReadyInfo) : option BufferAttribute :=
  match ready_geometry info with
  | handle => Some (position (geometry (points s)))
  | null => None
  end.

(** [posAttr ? posAttr.count : null] *)
Definition posCount_of (s : Session) (info : ReadyInfo) : option nat :=
  match posAttr_of s info with
  | Some attr => Some (count attr)
  | None => None
  end.

(** [posCount === readyInfo.particleCount] *)
Definition okCount_of (s : Session) (info : ReadyInfo) : bool :=
  match posCount_of s info with
  | Some c => Nat.eqb c (ready_particleCount info)
  | None => false
  end.

Definition report_message (particles : nat) (posCount : option nat)
    (okCount present : bool) : string :=
  ("Particles: " ++ string_of_nat particles ++ newline
   ++ "position attribute count: " ++ string_of_nullable posCount ++ newline
   ++ "count matches: " ++ string_of_bool okCount ++ newline
   ++ "points object present: " ++ string_of_bool present)%string.

(** [quickCheck] returns the text it passes to [alert]. *)
Definition quickCheck (s : Session) : string :=
  match readyInfo s with
  | None => not_ready_message
  | Some info =>
      report_message (ready_particleCount info) (posCount_of s info)
        (okCount_of s info) (truthy (ready_points info))
  end.

(* --------------------------------------------------------------------- *)
(** ** Reference notions for the statements                               *)
(* --------------------------------------------------------------------- *)

(** The position buffer that a running frame leaves, written as a function
    of the elapsed time, the normals, the random scalars and the
    properties alone. *)
Definition frame_positions (p : Props) (elapsed : num) (nrm rnd : Float32Array num)
    : Float32Array num :=
  flat_map
    (fun i => [stored p elapsed nrm rnd i 0; stored p elapsed nrm rnd i 1;
               stored p elapsed nrm rnd i 2])
    (seq 0 (particleCount p)).

(** What holds of a session throughout one activation: the properties and
    the start time are those of the effect, the normals and random scalars
    are the arrays the layout built, the position buffer keeps its size,
    [pointsRef] holds the Points object, [runningRef] mirrors [running], and
    [readyInfo] is null or the object the timer publishes. *)
Definition session_inv (p : Props) (random : nat -> num) (now0 : num) (s : Session) : Prop :=
  props s = p /\
  startTime s = now0 /\
  normalVec (geometry (points s)) = normalVec (build_geometry (layout p random)) /\
  aRandom (geometry (points s)) = aRandom (build_geometry (layout p random)) /\
  length (array (position (geometry (points s)))) = (particleCount p * 3)%nat /\
  itemSize (position (geometry (points s))) = 3%nat /\
  pointsRef s = handle /\
  runningRef s = running s /\
  (readyInfo s = None \/
   readyInfo s = Some {| ready_particleCount := particleCount p;
                         ready_geometry := handle;
                         ready_points := handle |}).

End Model.

Arguments BufferAttribute : clear implicits.
Arguments BufferGeometry : clear implicits.
Arguments Points : clear implicits.
Arguments Props : clear implicits.
Arguments Buffers : clear implicits.
Arguments Session : clear implicits.
Arguments Event : clear implicits.

(* ===================================================================== *)
(** * The exact arithmetic                                                *)
(* ===================================================================== *)

(** The real numbers as a [JSNumber]: every operation is the function that
    the double-precision operation of the source rounds, and a store keeps
    the value as it is.  [R] has no NaN; [NaN] is only what a read past the
    end of an array returns, and no such read happens in a session (see
    [reads_in_range]).  [acos] is applied inside [-1, 1] only (see
    [phi_argument_in_range]), and no divisor is zero inside the loops. *)
#[export] Instance RealNumber : JSNumber R := {|
  lit := Q2R;
  of_nat := INR;
  add := Rplus;
  sub := Rminus;
  mul := Rmult;
  div := Rdiv;
  Math_sin := sin;
  Math_cos := cos;
  Math_acos := acos;
  Math_sqrt := sqrt;
  Math_PI := PI;
  NaN := 0%R;
  fround := fun x => x;
|}.

(** Euclidean length of a vector, and the three components of entry [i] of
    an array of item size 3. *)
Definition norm3 (v : R * R * R) : R :=
  let '(x, y, z) := v in sqrt (x * x + y * y + z * z)%R.

Definition vec3 (a : Float32Array R) (i : nat) : R * R * R :=
  (get a (i * 3), get a (i * 3 + 1), get a (i * 3 + 2)).

Definition scale3 (k : R) (v : R * R * R) : R * R * R :=
  let '(x, y, z) := v in (x * k, y * k, z * k)%R.

(** The position of particle [i] is a scalar multiple of its normal. *)
Definition collinear (g : BufferGeometry R) (i : nat) : Prop :=
  exists k : R,
    vec3 (array (position g)) i = scale3 k (vec3 (array (normalVec g)) i).

(** The distance of particle [i] from the origin lies within
    [baseRadius - pulseAmplitude - 0.005, baseRadius + pulseAmplitude + 0.005]. *)
Definition in_band (p : Props R) (g : BufferGeometry R) (i : nat) : Prop :=
  (baseRadius p - pulseAmplitude p - 0.005 <= norm3 (vec3 (array (position g)) i)
   /\ norm3 (vec3 (array (position g)) i) <= baseRadius p + pulseAmplitude p + 0.005)%R.

(** The default properties of the component (lines 24-28), and a
    generator whose every draw is one half. *)
Definition default_props : Props R :=
  {| particleCount := 2000;
     baseRadius := 5;
     pulseAmplitude := 0.6;
     pulseSpeed := 1.05;
     rotationSpeed := 0.65 |}%R.

Definition half_draws : nat -> R := fun _ => 0.5%R.

(* ===================================================================== *)
(** * A symbolic arithmetic                                               *)
(* ===================================================================== *)

(** Numbers as the expressions that compute them.  With this arithmetic
    the model runs inside Rocq, and shows which expression each store
    receives and which call of [Math.random] feeds it. *)
Module Symbolic.

Inductive expr : Type :=
  | Literal (q : Q)
  | Counter (n : nat)
  | Name (x : string)
  | Draw (k : nat)
  | Plus (a b : expr)
  | Minus (a b : expr)
  | Times (a b : expr)
  | Over (a b : expr)
  | Sin (a : expr)
  | Cos (a : expr)
  | Acos (a : expr)
  | Sqrt (a : expr)
  | Pi
  | NotANumber
  | Float32 (a : expr).

#[export] Instance SymbolicNumber : JSNumber expr := {|
  lit := Literal;
  of_nat := Counter;
  add := Plus;
  sub := Minus;
  mul := Times;
  div := Over;
  Math_sin := Sin;
  Math_cos := Cos;
  Math_acos := Acos;
  Math_sqrt := Sqrt;
  Math_PI := Pi;
  NaN := NotANumber;
  fround := Float32;
|}.

(** Properties with [n] particles and named parameters. *)
Definition named_props (n : nat) : Props expr :=
  {| particleCount := n;
     baseRadius := Name "baseRadius";
     pulseAmplitude := Name "pulseAmplitude";
     pulseSpeed := Name "pulseSpeed";
     rotationSpeed := Name "rotationSpeed" |}.

End Symbolic.

(* ===================================================================== *)
(** * The overlay (source lines 231-245)                                  *)
(* ===================================================================== *)

(** [{running ? "Pause" : "Play"}] *)
Definition button_label {num : Type} (s : Session num) : string :=
  if running s then "Pause"%string else "Play"%string.

(** [{readyInfo ? readyInfo.particleCount : "loading..."}] *)
Definition particles_readout {num : Type} (s : Session num) : string :=
  match readyInfo s with
  | Some info => string_of_nat (ready_particleCount info)
  | None => "loading..."%string
  end.

(** [{running ? "yes" : "no"}] *)
Definition running_readout {num : Type} (s : Session num) : string :=
  if running s then "yes"%string else "no"%string.

(* ===================================================================== *)
(** * Counting toggles                                                    *)
(* ===================================================================== *)

Definition is_toggle {num : Type} (e : Event num) : bool :=
  match e with
  | ToggleRunning => true
  | _ => false
  end.

(** How many times the operator pressed Pause / Play. *)
Definition toggles {num : Type} (events : list (Event num)) : nat :=
  length (List.filter is_toggle events).

(* ===================================================================== *)
(** * Releasing the resources (source lines 184-201)                      *)
(* ===================================================================== *)

(** The objects on which the cleanup calls [dispose()]. *)
Inductive Disposable : Type := Controls | Geometry | Material | Renderer.

(** What the cleanup acts on: whether the frame of [animationRef] is still
    scheduled, whether the resize listener is registered, whether the scene
    holds the Points object, whether the canvas is a child of the mount
    element, which objects have been disposed (in order), and the two refs. *)
Record Resources : Type := {
  frame_pending : bool;
  resize_listening : bool;
  in_scene : bool;
  canvas_attached : bool;
  disposed : list Disposable;
  held_pointsRef : Ref;
  held_rendererRef : Ref;
}.

(** The resources as the effect leaves them. *)
Definition acquired : Resources :=
  {| frame_pending := true; resize_listening := true; in_scene := true;
     canvas_attached := true; disposed := [];
     held_pointsRef := handle; held_rendererRef := handle |}.

Inductive Outcome : Type :=
  | Completed
  | Threw (d : Disposable).

(** [x.dispose()]: [throws x] tells whether the call raises; a call that
    raises disposes nothing. *)
Definition call_dispose (throws : Disposable -> bool) (d : Disposable)
    (r : Resources) : option Resources :=
  if throws d then None
  else Some {| frame_pending := frame_pending r;
               resize_listening := resize_listening r;
               in_scene := in_scene r;
               canvas_attached := canvas_attached r;
               disposed := disposed r ++ [d];
               held_pointsRef := held_pointsRef r;
               held_rendererRef := held_rendererRef r |}.

(** [try { x.dispose(); } catch (e) {}] *)
Definition try_dispose (throws : Disposable -> bool) (d : Disposable)
    (r : Resources) : Resources :=
  match call_dispose throws d r with
  | Some r' => r'
  | None => r
  end.

(** The function the effect returns.  An exception that is not caught
    leaves the function at once, with the state reached so far. *)
Definition cleanup (throws : Disposable -> bool) (r : Resources) : Resources * Outcome :=
  (* cancelAnimationFrame(animationRef.current);
     window.removeEventListener("resize", handleResize); *)
  let r := {| frame_pending := false; resize_listening := false;
              in_scene := in_scene r; canvas_attached := canvas_attached r;
              disposed := disposed r;
              held_pointsRef := held_pointsRef r;
              held_rendererRef := held_rendererRef r |} in
  (* controls.dispose(); *)
  match call_dispose throws Controls r with
  | None => (r, Threw Controls)
  | Some r =>
      (* if (pointsRef.current) scene.remove(pointsRef.current); *)
      let scene := if truthy (held_pointsRef r) then false else in_scene r in
      let r := try_dispose throws Geometry r in
      let r := try_dispose throws Material r in
      let r := try_dispose throws Renderer r in
      (* if (mount.contains(renderer.domElement)) mount.removeChild(...);
         pointsRef.current = null; rendererRef.current = null; *)
      ({| frame_pending := frame_pending r;
          resize_listening := resize_listening r;
          in_scene := scene;
          canvas_attached := if canvas_attached r then false else canvas_attached r;
          disposed := disposed r;
          held_pointsRef := null;
          held_rendererRef := null |}, Completed)
  end.

(* ===================================================================== *)
(** * Exact arithmetic with rounding stores                               *)
(* ===================================================================== *)

(** The element conversion of a [Float32Array]: rounding to the nearest
    binary32 number, ties to even.  A binary32 number is [n * 2^e] with
    [|n| <= 2^24] and [e >= -149]; the unit in the last place of [x] is
    [2^e] with [e = max (floor (log2 |x|)) (-126) - 23].  [R] has no
    infinities: beyond the binary32 range the same grid continues, so
    overflow is not modelled. *)
Definition ilog2 (x : R) : Z := Int_part (ln x / ln 2).

Definition float32_exponent (x : R) : Z :=
  (Z.max (ilog2 (Rabs x)) (-126) - 23)%Z.

(** Rounding to the nearest integer, ties to even. *)
Definition rne (y : R) : Z :=
  let f := Int_part y in
  if Rlt_dec (y - IZR f) (1 / 2) then f
  else if Rlt_dec (1 / 2) (y - IZR f) then (f + 1)%Z
  else if Z.even f then f else (f + 1)%Z.

Definition fround32 (x : R) : R :=
  (IZR (rne (x * powerRZ 2 (- float32_exponent x))) * powerRZ 2 (float32_exponent x))%R.

Definition representable (y : R) : Prop :=
  exists (n e : Z),
    (-149 <= e)%Z /\ (Z.abs n <= 2 ^ 24)%Z /\ y = (IZR n * powerRZ 2 e)%R.

(** The real numbers with exact operations and rounding stores: what
    [RealNumber] is, except that a store into a [Float32Array] rounds. *)
Definition Float32Number : JSNumber R := {|
  lit := Q2R;
  of_nat := INR;
  add := Rplus;
  sub := Rminus;
  mul := Rmult;
  div := Rdiv;
  Math_sin := sin;
  Math_cos := cos;
  Math_acos := acos;
  Math_sqrt := sqrt;
  Math_PI := PI;
  NaN := 0%R;
  fround := fround32;
|}.

(** The claim that the stored distance lies in the band exactly, for
    positive [baseRadius], read on the rounding stores. *)
Definition exact_band_on_stores : Prop :=
  forall (p : Props R) (random : nat -> R) (now0 : R) (events : list (Event R))
         (now : R) (i : nat),
    (forall k, 0 <= random k < 1)%R ->
    (0 <= pulseAmplitude p)%R ->
    (0 < baseRadius p)%R ->
    let s := run (H := Float32Number) (effect (H := Float32Number) p random now0) events in
    running s = true ->
    i < particleCount p ->
    in_band p (geometry (points (animate (H := Float32Number) s now))) i.

(** What float32 rounding can add to or take from a distance below
    [bound]. *)
Definition store_tolerance (bound : R) : R :=
  (bound * powerRZ 2 (-21) + powerRZ 2 (-149))%R.

(** Generators for concrete sessions: every draw just below 1, and draws
    alternating between a quarter (jitter) and three quarters (scalar). *)
Definition edge_draws : nat -> R := fun _ => (1 - powerRZ 2 (-26))%R.

Definition quarter_draws : nat -> R :=
  fun k => if Nat.even k then 0.25%R else 0.75%R.

(** One particle, no pulse, and a generator whose every draw is 0. *)
Definition single_particle (radius : R) : Props R :=
  {| particleCount := 1;
     baseRadius := radius;
     pulseAmplitude := 0;
     pulseSpeed := 1;
     rotationSpeed := 0 |}%R.

Definition zero_draws : nat -> R := fun _ => 0%R.

(* ===================================================================== *)
(** * Re-activation (source lines 37, 44-132, 184-202)                    *)
(* ===================================================================== *)

(** The effect runs again whenever a property changes (line 202): React
    calls the cleanup of the previous run, then the effect.  The state of
    [useState] and the refs belong to the component and survive; each run
    allocates a Points object of its own.  Objects are numbered by the run
    that allocated them, and a reference is [None] (null) or the number of
    an object. *)
Section Lifecycle.

Context {num : Type} `{JSNumber num}.

(** The object passed to [setReadyInfo], with its two references. *)
Record Published : Type := {
  published_particleCount : nat;
  published_geometry : option nat;
  published_points : option nat;
}.

Record Component : Type := {
  objects : list (Points num);            (* the Points objects allocated so far *)
  live_props : Props num;                 (* the properties of the live effect *)
  live_startTime : num;                   (* its [startTime] *)
  component_pointsRef : option nat;       (* pointsRef.current *)
  component_runningRef : bool;            (* runningRef.current *)
  component_running : bool;               (* the state [running] *)
  component_readyInfo : option Published; (* the state [readyInfo] *)
  pending_timers : list Published;        (* readiness timers not yet fired, oldest first *)
}.

(** [new THREE.Points(geometry, material)] over freshly built buffers. *)
Definition new_points (p : Props num) (random : nat -> num) : Points num :=
  {| geometry := build_geometry (layout p random);
     rotation_x := lit 0;
     rotation_y := lit 0 |}.

(** The effect body up to the scheduling of the timer (lines 44-132), on
    the component state [c] that React kept. *)
Definition run_effect (c : Component) (p : Props num) (random : nat -> num) (now : num)
    : Component :=
  let k := length (objects c) in
  {| objects := objects c ++ [new_points p random];
     live_props := p;
     live_startTime := now;
     component_pointsRef := Some k;
     component_runningRef := component_runningRef c;
     component_running := component_running c;
     component_readyInfo := component_readyInfo c;
     pending_timers :=
       pending_timers c ++ [{| published_particleCount := particleCount p;
                               published_geometry := Some k;
                               published_points := Some k |}] |}.

(** The live run seen as a session: its closure reads the object it
    allocated, the last one. *)
Definition live_session (c : Component) (pts : Points num) : Session num :=
  {| props := live_props c;
     startTime := live_startTime c;
     points := pts;
     pointsRef :=
       match component_pointsRef c with
       | Some k => if Nat.eqb (S k) (length (objects c)) then handle else null
       | None => null
       end;
     runningRef := component_runningRef c;
     running := component_running c;
     readyInfo := None |}.

(** A frame of the live run. *)
Definition component_animate (c : Component) (now : num) : Component :=
  let live := pred (length (objects c)) in
  match objects c !! live with
  | Some pts =>
      {| objects := <[live := points (animate (live_session c pts) now)]> (objects c);
         live_props := live_props c;
         live_startTime := live_startTime c;
         component_pointsRef := component_pointsRef c;
         component_runningRef := component_runningRef c;
         component_running := component_running c;
         component_readyInfo := component_readyInfo c;
         pending_timers := pending_timers c |}
  | None => c
  end.

(** The first run of the effect, on the initial state of the hooks, and
    the call [animate()] of line 171. *)
Definition mount_component (p : Props num) (random : nat -> num) (now0 now1 : num)
    : Component :=
  component_animate
    (run_effect
       {| objects := []; live_props := p; live_startTime := now0;
          component_pointsRef := None;
          component_runningRef := true; component_running := true;
          component_readyInfo := None; pending_timers := [] |}
       p random now0)
    now1.

(** What the cleanup does to the component (lines 184-201): the frame loop
    stops and [pointsRef.current] becomes null.  It clears no timer and
    does not touch [readyInfo]. *)
Definition component_cleanup (c : Component) : Component :=
  {| objects := objects c;
     live_props := live_props c;
     live_startTime := live_startTime c;
     component_pointsRef := None;
     component_runningRef := component_runningRef c;
     component_running := component_running c;
     component_readyInfo := component_readyInfo c;
     pending_timers := pending_timers c |}.

(** A property changes: the cleanup, the effect, and its first frame. *)
Definition reactivate (c : Component) (p : Props num) (random : nat -> num)
    (now0 now1 : num) : Component :=
  component_animate (run_effect (component_cleanup c) p random now0) now1.

(** The oldest pending readiness timer fires. *)
Definition component_timer (c : Component) : Component :=
  match pending_timers c with
  | [] => c
  | info :: rest =>
      {| objects := objects c;
         live_props := live_props c;
         live_startTime := live_startTime c;
         component_pointsRef := component_pointsRef c;
         component_runningRef := component_runningRef c;
         component_running := component_running c;
         component_readyInfo := Some info;
         pending_timers := rest |}
  end.

(** [quickCheck] on the component: the references of [readyInfo] are
    followed to the objects they name. *)
Definition component_quickCheck (c : Component) : string :=
  match component_readyInfo c with
  | None => not_ready_message
  | Some info =>
      let posAttr :=
        match published_geometry info with
        | Some k =>
            match objects c !! k with
            | Some pts => Some (position (geometry pts))
            | None => None
            end
        | None => None
        end in
      let posCount :=
        match posAttr with
        | Some attr => Some (count attr)
        | None => None
        end in
      let okCount :=
        match posCount with
        | Some n => Nat.eqb n (published_particleCount info)
        | None => false
        end in
      report_message (published_particleCount info) posCount okCount
        (match published_points info with Some _ => true | None => false end)
  end.

End Lifecycle.

Arguments Component : clear implicits.

(* ===================================================================== *)
(** * Loops and arrays                                                    *)
(* ===================================================================== *)

Lemma for_loop_S {S : Type} (n : nat) (body : nat -> S -> S) (s : S) :
  for_loop (Datatypes.S n) body s = body n (for_loop n body s).
Proof.
  unfold for_loop. rewrite seq_S, foldl_app. reflexivity.
Qed.

(** The loop-invariant rule for [for_loop]. *)
Lemma for_loop_invariant {S : Type} (P : nat -> S -> Prop) (n : nat)
    (body : nat -> S -> S) (s : S) :
  P 0 s ->
  (forall i acc, i < n -> P i acc -> P (Datatypes.S i) (body i acc)) ->
  P n (for_loop n body s).
Proof.
  intros Hinit Hstep.
  assert (Hall : forall k, k <= n -> P k (for_loop k body s)).
  { induction k as [|k IH]; intros Hk.
    - exact Hinit.
    - rewrite for_loop_S. apply Hstep; [lia | apply IH; lia]. }
  apply Hall. lia.
Qed.

Section Arrays.

Context {num : Type} `{JSNumber num}.

Lemma length_new (n : nat) : length (new_Float32Array n) = n.
Proof. unfold new_Float32Array. apply length_replicate. Qed.

Lemma length_set (a : Float32Array num) (i : nat) (v : num) :
  length (set a i v) = length a.
Proof. unfold set. apply length_insert. Qed.

Lemma get_set_eq (a : Float32Array num) (i : nat) (v : num) :
  i < length a -> get (set a i v) i = fround v.
Proof.
  intros Hi. unfold get, set. rewrite list_lookup_insert_eq by exact Hi. reflexivity.
Qed.

Lemma get_set_ne (a : Float32Array num) (i j : nat) (v : num) :
  i <> j -> get (set a i v) j = get a j.
Proof.
  intros Hij. unfold get, set. rewrite list_lookup_insert_ne by exact Hij. reflexivity.
Qed.

(** Two arrays of one length that read the same everywhere are equal. *)
Lemma array_ext (a b : Float32Array num) :
  length a = length b ->
  (forall j, j < length a -> get a j = get b j) ->
  a = b.
Proof.
  intros Hlen Hget. apply list_eq. intros j.
  destruct (decide (j < length a)) as [Hj|Hj].
  - specialize (Hget j Hj). unfold get in Hget.
    destruct (lookup_lt_is_Some_2 a j Hj) as [va Hva].
    destruct (lookup_lt_is_Some_2 b j ltac:(lia)) as [vb Hvb].
    rewrite Hva, Hvb in Hget. rewrite Hva, Hvb. congruence.
  - rewrite !lookup_ge_None_2 by lia. reflexivity.
Qed.

End Arrays.

(** Reads of stores: the index written last wins, other indices keep
    their value. *)
Ltac read_stores :=
  repeat first
    [ rewrite get_set_ne by lia
    | rewrite get_set_eq by (rewrite ?length_set; lia) ].

(* ===================================================================== *)
(** * The layout loop, for every arithmetic                               *)
(* ===================================================================== *)

Section Layout.

Context {num : Type} `{JSNumber num}.

Variable p : Props num.
Variable random : nat -> num.

Lemma layout_body_inv (k : nat) (b : Buffers num) :
  k < particleCount p -> layout_inv p random k b ->
  layout_inv p random (S k) (layout_body p random k b).
Proof.
  intros Hk (Hpos & Hnrm & Hrnd & Hcalls & Hentries).
  unfold layout_inv, layout_body; cbn [positions normals randoms calls].
  rewrite !length_set.
  split; [exact Hpos|]. split; [exact Hnrm|]. split; [exact Hrnd|].
  split; [lia|].
  intros i Hi.
  destruct (decide (i = k)) as [->|Hne].
  - rewrite Hcalls.
    replace (S (2 * k)) with (2 * k + 1) by lia.
    repeat split; read_stores; reflexivity.
  - destruct (Hentries i ltac:(lia)) as (Hx & Hy & Hz & Hpx & Hpy & Hpz & Hr).
    repeat split; read_stores; assumption.
Qed.

Lemma layout_spec : layout_inv p random (particleCount p) (layout p random).
Proof.
  unfold layout.
  apply (for_loop_invariant (layout_inv p random)).
  - unfold layout_inv; cbn [positions normals randoms calls].
    rewrite !length_new. repeat split; try lia.
    all: intros; lia.
  - intros i acc Hi Hacc. apply layout_body_inv; assumption.
Qed.

End Layout.

(* ===================================================================== *)
(** * The update loop, for every arithmetic                               *)
(* ===================================================================== *)

Section Update.

Context {num : Type} `{JSNumber num}.

Variable p : Props num.
Variable elapsed : num.
Variables nrm rnd : Float32Array num.

Lemma update_body_inv (len k : nat) (pos : Float32Array num) :
  k * 3 + 2 < len -> update_inv p elapsed nrm rnd len k pos ->
  update_inv p elapsed nrm rnd len (S k) (update_body p elapsed nrm rnd k pos).
Proof.
  intros Hk [Hlen Hentries]. unfold update_inv, update_body.
  rewrite !length_set. split; [exact Hlen|].
  intros i c Hi Hc.
  destruct (decide (i = k)) as [->|Hne].
  - unfold stored.
    assert (Hcases : c = 0 \/ c = 1 \/ c = 2) by lia.
    destruct Hcases as [->|[->| ->]]; rewrite ?Nat.add_0_r; read_stores; reflexivity.
  - rewrite <- (Hentries i c) by lia. read_stores. reflexivity.
Qed.

Lemma update_loop_spec (pos : Float32Array num) :
  length pos = particleCount p * 3 ->
  update_inv p elapsed nrm rnd (particleCount p * 3) (particleCount p)
    (for_loop (particleCount p) (update_body p elapsed nrm rnd) pos).
Proof.
  intros Hlen.
  apply (for_loop_invariant (update_inv p elapsed nrm rnd (particleCount p * 3))).
  - split; [exact Hlen|]. intros; lia.
  - intros i acc Hi Hacc. apply update_body_inv; [lia | exact Hacc].
Qed.

(** Every index of a buffer of [n] particles is a component of a particle. *)
Lemma index_split (n j : nat) :
  j < n * 3 -> exists i c, i < n /\ c < 3 /\ j = i * 3 + c.
Proof.
  intros Hj. exists (j / 3), (j mod 3).
  pose proof (Nat.div_mod_eq j 3) as Hdm.
  pose proof (Nat.mod_upper_bound j 3 ltac:(lia)) as Hm.
  repeat split; lia.
Qed.

(** The loop overwrites the whole buffer: its result does not depend on
    what the buffer held before. *)
Lemma update_loop_overwrites (pos1 pos2 : Float32Array num) :
  length pos1 = particleCount p * 3 ->
  length pos2 = particleCount p * 3 ->
  for_loop (particleCount p) (update_body p elapsed nrm rnd) pos1 =
  for_loop (particleCount p) (update_body p elapsed nrm rnd) pos2.
Proof.
  intros H1 H2.
  destruct (update_loop_spec pos1 H1) as [Hl1 He1].
  destruct (update_loop_spec pos2 H2) as [Hl2 He2].
  apply array_ext; [congruence|].
  intros j Hj. rewrite Hl1 in Hj.
  destruct (index_split _ _ Hj) as (i & c & Hi & Hc & ->).
  rewrite He1, He2 by assumption. reflexivity.
Qed.

End Update.

(* ===================================================================== *)
(** * Sessions, for every arithmetic                                      *)
(* ===================================================================== *)

Section Sessions.

Context {num : Type} `{JSNumber num}.

Variable p : Props num.
Variable random : nat -> num.
Variable now0 : num.

Lemma session_inv_effect : session_inv p random now0 (effect p random now0).
Proof.
  destruct (layout_spec p random) as (Hpos & _).
  unfold session_inv, effect; cbn.
  repeat split; try reflexivity; [exact Hpos | left; reflexivity].
Qed.

Lemma update_positions_length (t : num) (g : BufferGeometry num) :
  length (array (position g)) = particleCount p * 3 ->
  length (array (position (update_positions p t g))) = particleCount p * 3.
Proof.
  intros Hlen. unfold update_positions; cbn.
  destruct (update_loop_spec p t (array (normalVec g)) (array (aRandom g)) _ Hlen) as [Hl _].
  exact Hl.
Qed.

Lemma session_inv_animate (s : Session num) (now : num) :
  session_inv p random now0 s -> session_inv p random now0 (animate s now).
Proof.
  intros (Hp & Ht & Hn & Hr & Hlen & Hsize & Href & Hrun & Hready).
  unfold session_inv, animate; cbn.
  rewrite Href.
  destruct (runningRef s) eqn:Hrunning; cbn.
  - rewrite Hp. repeat split; try assumption.
    apply update_positions_length. exact Hlen.
  - repeat split; assumption.
Qed.

Lemma session_inv_event (s : Session num) (e : Event num) :
  session_inv p random now0 s -> session_inv p random now0 (handle_event s e).
Proof.
  intros Hs. destruct e as [now| |]; cbn.
  - apply session_inv_animate. exact Hs.
  - destruct Hs as (Hp & Ht & Hn & Hr & Hlen & Hsize & Href & Hrun & Hready).
    unfold session_inv, toggleRunning; cbn. repeat split; assumption.
  - destruct Hs as (Hp & Ht & Hn & Hr & Hlen & Hsize & Href & Hrun & Hready).
    unfold session_inv, publish_ready; cbn. rewrite Hp.
    repeat split; try assumption. right; reflexivity.
Qed.

Lemma session_inv_run_from (s : Session num) (events : list (Event num)) :
  session_inv p random now0 s -> session_inv p random now0 (run s events).
Proof.
  revert s. induction events as [|e events IH]; intros s Hs; cbn.
  - exact Hs.
  - apply IH. apply session_inv_event. exact Hs.
Qed.

(** The invariant holds in every state of an activation. *)
Lemma session_inv_run (events : list (Event num)) :
  session_inv p random now0 (run (effect p random now0) events).
Proof. apply session_inv_run_from. apply session_inv_effect. Qed.

End Sessions.

(* ===================================================================== *)
(** * The frame update, for every arithmetic                              *)
(* ===================================================================== *)

Section Frames.

Context {num : Type} `{JSNumber num}.

Lemma flat3_length (a : nat -> nat -> num) (n : nat) :
  length (flat_map (fun i => [a i 0; a i 1; a i 2]) (seq 0 n)) = n * 3.
Proof.
  induction n as [|n IH]; [reflexivity|].
  rewrite seq_S, flat_map_app, length_app, IH. cbn. lia.
Qed.

Lemma flat3_get (a : nat -> nat -> num) (n i c : nat) :
  i < n -> c < 3 ->
  get (flat_map (fun i => [a i 0; a i 1; a i 2]) (seq 0 n)) (i * 3 + c) = a i c.
Proof.
  intros Hi Hc. unfold get.
  induction n as [|n IH]; [lia|].
  rewrite seq_S, flat_map_app.
  destruct (decide (i = n)) as [->|Hne].
  - rewrite lookup_app_r by (rewrite flat3_length; lia).
    rewrite flat3_length.
    replace (n * 3 + c - n * 3) with c by lia.
    assert (Hcases : c = 0 \/ c = 1 \/ c = 2) by lia.
    destruct Hcases as [->|[->| ->]]; reflexivity.
  - rewrite lookup_app_l by (rewrite flat3_length; lia).
    apply IH. lia.
Qed.

(** A running frame leaves exactly [frame_positions] in the buffer,
    whatever the buffer held before. *)
Lemma update_positions_array (p : Props num) (t : num) (g : BufferGeometry num) :
  length (array (position g)) = particleCount p * 3 ->
  array (position (update_positions p t g)) =
  frame_positions p t (array (normalVec g)) (array (aRandom g)).
Proof.
  intros Hlen. unfold update_positions; cbn.
  destruct (update_loop_spec p t (array (normalVec g)) (array (aRandom g)) _ Hlen)
    as [Hl Hentries].
  unfold frame_positions.
  apply array_ext.
  - rewrite Hl, flat3_length. reflexivity.
  - intros j Hj. rewrite Hl in Hj.
    destruct (index_split _ _ Hj) as (i & c & Hi & Hc & ->).
    rewrite Hentries by assumption.
    rewrite (flat3_get (stored p t (array (normalVec g)) (array (aRandom g)))) by assumption.
    reflexivity.
Qed.

(** The position attribute after [animate]. *)
Lemma animate_position (s : Session num) (now : num) :
  position (geometry (points (animate s now))) =
  if runningRef s
  then position (update_positions (props s) (elapsed_of s now) (geometry (points s)))
  else position (geometry (points s)).
Proof.
  unfold animate; cbn. destruct (pointsRef s), (runningRef s); reflexivity.
Qed.

Lemma animate_normalVec (s : Session num) (now : num) :
  normalVec (geometry (points (animate s now))) = normalVec (geometry (points s)).
Proof.
  unfold animate; cbn. destruct (pointsRef s), (runningRef s); reflexivity.
Qed.

Lemma animate_aRandom (s : Session num) (now : num) :
  aRandom (geometry (points (animate s now))) = aRandom (geometry (points s)).
Proof.
  unfold animate; cbn. destruct (pointsRef s), (runningRef s); reflexivity.
Qed.

(** C5.  A frame that runs while the component is paused leaves the
    position buffer as it was: in every state of an activation in which
    [running] is false, [animate] at any clock reading returns the position
    attribute unchanged (every index, and the attribute's flags too). *)
Theorem paused_frame_keeps_positions (p : Props num) (random : nat -> num)
    (now0 : num) (events : list (Event num)) (now : num) :
  let s := run (effect p random now0) events in
  running s = false ->
  position (geometry (points (animate s now))) = position (geometry (points s)).
Proof.
  intros s Hpaused.
  destruct (session_inv_run p random now0 events)
    as (_ & _ & _ & _ & _ & _ & _ & Hmirror & _).
  fold s in Hmirror.
  rewrite animate_position, Hmirror, Hpaused. reflexivity.
Qed.

(** C9.  A frame writes the position array only.  After any history of
    an activation and one more frame at any clock reading, the normal and
    random-scalar attributes are still the ones built at construction, and
    the position array is, when running, [frame_positions]: a function of
    the elapsed time, the normals, the random scalars and the properties,
    in which the previous positions do not occur (and when paused it is the
    previous array). *)
Theorem frame_writes_positions_only (p : Props num) (random : nat -> num)
    (now0 : num) (events : list (Event num)) (now : num) :
  let s := run (effect p random now0) events in
  let s' := animate s now in
  let built := build_geometry (layout p random) in
  normalVec (geometry (points s')) = normalVec built /\
  aRandom (geometry (points s')) = aRandom built /\
  array (position (geometry (points s'))) =
    if runningRef s
    then frame_positions p (elapsed_of s now) (array (normalVec built)) (array (aRandom built))
    else array (position (geometry (points s))).
Proof.
  intros s s' built.
  destruct (session_inv_run p random now0 events)
    as (Hp & _ & Hn & Hr & Hlen & _).
  fold s in Hp, Hn, Hr, Hlen. fold built in Hn, Hr.
  subst s'. rewrite animate_normalVec, animate_aRandom, animate_position.
  split; [exact Hn|]. split; [exact Hr|].
  destruct (runningRef s); [|reflexivity].
  rewrite Hp, update_positions_array by exact Hlen.
  rewrite Hn, Hr. reflexivity.
Qed.

End Frames.

(* ===================================================================== *)
(** * The self-check, for every arithmetic                                *)
(* ===================================================================== *)

Section SelfCheck.

Context {num : Type} `{JSNumber num}.

Lemma props_event (s : Session num) (e : Event num) :
  props (handle_event s e) = props s.
Proof. destruct e; reflexivity. Qed.

Lemma run_cons (s : Session num) (e : Event num) (events : list (Event num)) :
  run s (e :: events) = run (handle_event s e) events.
Proof. reflexivity. Qed.

Lemma props_run (s : Session num) (events : list (Event num)) :
  props (run s events) = props s.
Proof.
  revert s. induction events as [|e events IH]; intros s; [reflexivity|].
  rewrite run_cons, IH. apply props_event.
Qed.

Lemma published_event (s : Session num) (e : Event num) :
  readyInfo (publish_ready (handle_event s e)) = readyInfo (publish_ready s).
Proof. destruct e; reflexivity. Qed.

(** Once published, the readiness object stays as published. *)
Lemma readyInfo_stays (s : Session num) (events : list (Event num)) :
  readyInfo s = readyInfo (publish_ready s) ->
  readyInfo (run s events) = readyInfo (publish_ready s).
Proof.
  revert s. induction events as [|e events IH]; intros s Hs.
  - exact Hs.
  - rewrite run_cons, IH.
    + apply published_event.
    + rewrite published_event. destruct e; [exact Hs | exact Hs | reflexivity].
Qed.

Lemma readyInfo_fired (s : Session num) (events : list (Event num)) :
  ReadyTimer ∈ events ->
  readyInfo (run s events) = readyInfo (publish_ready s).
Proof.
  revert s. induction events as [|e events IH]; intros s Hin.
  - apply elem_of_nil in Hin. contradiction.
  - rewrite run_cons.
    apply elem_of_cons in Hin. destruct Hin as [<-|Hin].
    + rewrite readyInfo_stays; reflexivity.
    + rewrite IH by exact Hin. apply published_event.
Qed.

Lemma readyInfo_not_fired (s : Session num) (events : list (Event num)) :
  ReadyTimer ∉ events ->
  readyInfo (run s events) = readyInfo s.
Proof.
  revert s. induction events as [|e events IH]; intros s Hnot.
  - reflexivity.
  - rewrite run_cons.
    apply not_elem_of_cons in Hnot. destruct Hnot as [Hne Hnot].
    rewrite IH by exact Hnot.
    destruct e; [reflexivity | reflexivity | congruence].
Qed.

(** The report of a session whose readiness object has been published. *)
Lemma quickCheck_published (p : Props num) (random : nat -> num) (now0 : num)
    (s : Session num) :
  session_inv p random now0 s ->
  readyInfo s = readyInfo (publish_ready s) ->
  quickCheck s =
  report_message (particleCount p) (Some (particleCount p)) true true.
Proof.
  intros (Hp & _ & _ & _ & Hlen & Hsize & _) Hready.
  unfold quickCheck. rewrite Hready. cbn [readyInfo publish_ready].
  unfold okCount_of, posCount_of, posAttr_of, count, truthy.
  cbn [ready_geometry ready_particleCount ready_points].
  rewrite Hlen, Hsize, Hp, Nat.div_mul by lia.
  rewrite Nat.eqb_refl. reflexivity.
Qed.

Lemma not_ready_is_distinct (n : nat) (c : option nat) (ok present : bool) :
  not_ready_message <> report_message n c ok present.
Proof. unfold not_ready_message, report_message. cbn. discriminate. Qed.

End SelfCheck.

(* ===================================================================== *)
(** * Exact arithmetic: the layout                                        *)
(* ===================================================================== *)

(** Rewrites the operations of [RealNumber] into those of [R]. *)
Ltac reals :=
  cbn [lit of_nat add sub mul div Math_sin Math_cos Math_acos Math_sqrt Math_PI
       NaN fround RealNumber] in *;
  unfold Q2R in *; cbn [Qnum Qden] in *.

Section RealLayout.

Local Open Scope R_scope.

Variable p : Props R.
Variable random : nat -> R.

Lemma norm3_scale3 (k : R) (v : R * R * R) :
  norm3 (scale3 k v) = Rabs k * norm3 v.
Proof.
  destruct v as [[x y] z]. unfold norm3, scale3.
  replace (x * k * (x * k) + y * k * (y * k) + z * k * (z * k))
    with (k² * (x * x + y * y + z * z)) by (unfold Rsqr; ring).
  rewrite sqrt_mult_alt by apply Rle_0_sqr.
  rewrite sqrt_Rsqr_abs. reflexivity.
Qed.

Lemma unit_vector (i : nat) :
  norm3 (x_of p i, y_of p i, z_of p i) = 1.
Proof.
  unfold norm3, x_of, y_of, z_of. reals.
  set (phi := phi_of p i). set (theta := theta_of i).
  replace (sin phi * cos theta * (sin phi * cos theta)
           + sin phi * sin theta * (sin phi * sin theta) + cos phi * cos phi)
    with ((sin phi)² * ((sin theta)² + (cos theta)²) + (cos phi)²)
    by (unfold Rsqr; ring).
  rewrite sin2_cos2, Rmult_1_r, sin2_cos2. apply sqrt_1.
Qed.

(** The argument of [Math.acos] is inside [-1, 1] for every index of the
    loop, and the divisor [particleCount] is positive there. *)
Lemma phi_argument_in_range (i : nat) :
  (i < particleCount p)%nat ->
  let x := 1 - 2 * (INR i + 0.5) / INR (particleCount p) in
  phi_of p i = acos x /\ -1 <= x <= 1 /\ 0 < INR (particleCount p).
Proof.
  intros Hi x.
  assert (Hn : 0 < INR (particleCount p)) by (apply lt_0_INR; lia).
  assert (Hi0 : 0 <= INR i) by apply pos_INR.
  assert (Hi1 : INR i + 1 <= INR (particleCount p)).
  { rewrite <- S_INR. apply le_INR. lia. }
  assert (H0 : 0 <= 2 * (INR i + 0.5) / INR (particleCount p)).
  { apply Rmult_le_pos; [lra | left; apply Rinv_0_lt_compat; exact Hn]. }
  assert (H2 : 2 * (INR i + 0.5) / INR (particleCount p) <= 2).
  { apply (Rmult_le_reg_r (INR (particleCount p))); [exact Hn|].
    unfold Rdiv. rewrite Rmult_assoc, Rinv_l by lra. lra. }
  split; [|split; [unfold x; lra | exact Hn]].
  unfold phi_of, x. reals. f_equal. lra.
Qed.

(** The layout in exact arithmetic: entry [i] of each buffer. *)
Lemma layout_entries (i : nat) :
  (i < particleCount p)%nat ->
  let b := layout p random in
  vec3 (normals b) i = (x_of p i, y_of p i, z_of p i) /\
  vec3 (positions b) i =
    scale3 (baseRadius p + jitter_of (random (2 * i))) (x_of p i, y_of p i, z_of p i) /\
  get (randoms b) i = random (2 * i + 1).
Proof.
  intros Hi b.
  destruct (layout_spec p random) as (_ & _ & _ & _ & Hentries).
  destruct (Hentries i Hi) as (Hx & Hy & Hz & Hpx & Hpy & Hpz & Hr).
  fold b in Hx, Hy, Hz, Hpx, Hpy, Hpz, Hr.
  unfold vec3, scale3.
  rewrite Hx, Hy, Hz, Hpx, Hpy, Hpz, Hr. reals. repeat split.
Qed.

End RealLayout.

Section RealLayoutClaims.

Local Open Scope R_scope.

(** C3.  For every particle count [N], the layout produces [N] entries in
    each of the three attributes (arrays of [3N], [3N] and [N] numbers,
    hence empty ones when [N = 0]), and every normal has Euclidean length 1
    in exact arithmetic. *)
Theorem layout_sizes_and_unit_normals (p : Props R) (random : nat -> R) :
  let b := layout p random in
  let g := build_geometry b in
  (count (position g) = particleCount p /\
   count (normalVec g) = particleCount p /\
   count (aRandom g) = particleCount p) /\
  (length (positions b) = (particleCount p * 3)%nat /\
   length (normals b) = (particleCount p * 3)%nat /\
   length (randoms b) = particleCount p) /\
  (particleCount p = 0%nat -> positions b = [] /\ normals b = [] /\ randoms b = []) /\
  (forall i, (i < particleCount p)%nat -> norm3 (vec3 (normals b) i) = 1).
Proof.
  intros b g.
  destruct (layout_spec p random) as (Hpos & Hnrm & Hrnd & _).
  fold b in Hpos, Hnrm, Hrnd.
  split; [|split; [|split]].
  - unfold count, g, build_geometry, new_BufferAttribute.
    cbn [array itemSize position normalVec aRandom].
    rewrite Hpos, Hnrm, Hrnd.
    rewrite Nat.div_mul by lia. rewrite Nat.div_1_r. auto.
  - auto.
  - intros Hzero. rewrite Hzero in Hpos, Hnrm, Hrnd. cbn in Hpos, Hnrm.
    repeat split; apply nil_length_inv; assumption.
  - intros i Hi.
    destruct (layout_entries p random i Hi) as (Hn & _).
    fold b in Hn. rewrite Hn. apply unit_vector.
Qed.

End RealLayoutClaims.

(* ===================================================================== *)
(** * Exact arithmetic: frames                                            *)
(* ===================================================================== *)

Section RealFrames.

Local Open Scope R_scope.

Variable p : Props R.
Variable random : nat -> R.
Variable now0 : R.

(** Entry [i] of the position buffer after a running frame. *)
Lemma running_frame_entry (s : Session R) (now : R) (i : nat) :
  session_inv p random now0 s ->
  runningRef s = true ->
  (i < particleCount p)%nat ->
  let g := geometry (points s) in
  let t := elapsed_of s now in
  vec3 (array (position (geometry (points (animate s now))))) i =
  scale3 (radius_of p t (array (aRandom g)) i + noise_of t (array (aRandom g)) i)
    (vec3 (array (normalVec g)) i).
Proof.
  intros (Hp & _ & _ & _ & Hlen & _) Hrunning Hi g t.
  rewrite animate_position, Hrunning, Hp.
  rewrite update_positions_array by exact Hlen.
  unfold vec3, frame_positions.
  rewrite <- (Nat.add_0_r (i * 3)) at 1 4.
  rewrite !(flat3_get (stored p (elapsed_of s now) _ _)) by lia.
  unfold stored, scale3. reals. reflexivity.
Qed.

(** The normals and random scalars of a session are those of the layout. *)
Lemma session_normal (s : Session R) (i : nat) :
  session_inv p random now0 s ->
  (i < particleCount p)%nat ->
  vec3 (array (normalVec (geometry (points s)))) i = (x_of p i, y_of p i, z_of p i).
Proof.
  intros (_ & _ & Hn & _) Hi. rewrite Hn.
  destruct (layout_entries p random i Hi) as (Hnormal & _). exact Hnormal.
Qed.

Lemma session_random (s : Session R) (i : nat) :
  session_inv p random now0 s ->
  (i < particleCount p)%nat ->
  get (array (aRandom (geometry (points s)))) i = random (2 * i + 1).
Proof.
  intros (_ & _ & _ & Hr & _) Hi. rewrite Hr.
  destruct (layout_entries p random i Hi) as (_ & _ & Hrandom). exact Hrandom.
Qed.

(** No read of a session's frame falls past the end of an array, so [NaN]
    never enters the arithmetic. *)
Lemma reads_in_range (s : Session R) (i c : nat) :
  session_inv p random now0 s ->
  (i < particleCount p)%nat -> (c < 3)%nat ->
  (i * 3 + c < length (array (normalVec (geometry (points s)))))%nat /\
  (i < length (array (aRandom (geometry (points s)))))%nat.
Proof.
  intros (_ & _ & Hn & Hr & _) Hi Hc. rewrite Hn, Hr.
  destruct (layout_spec p random) as (_ & Hnrm & Hrnd & _).
  cbn. rewrite Hnrm, Hrnd. lia.
Qed.

Lemma collinear_effect (i : nat) :
  (i < particleCount p)%nat ->
  collinear (geometry (points (effect p random now0))) i.
Proof.
  intros Hi. unfold collinear, effect, build_geometry, new_BufferAttribute.
  cbn [geometry points position normalVec array].
  destruct (layout_entries p random i Hi) as (Hn & Hpos & _).
  rewrite Hn, Hpos. eexists. reflexivity.
Qed.

Lemma collinear_event (s : Session R) (e : Event R) (i : nat) :
  session_inv p random now0 s ->
  (i < particleCount p)%nat ->
  collinear (geometry (points s)) i ->
  collinear (geometry (points (handle_event s e))) i.
Proof.
  intros Hs Hi Hcol. destruct e as [now| |]; cbn [handle_event]; try exact Hcol.
  unfold collinear. rewrite animate_normalVec.
  destruct (runningRef s) eqn:Hrunning.
  - rewrite (running_frame_entry s now i Hs Hrunning Hi). eexists. reflexivity.
  - rewrite animate_position, Hrunning. exact Hcol.
Qed.

Lemma collinear_run_from (s : Session R) (events : list (Event R)) (i : nat) :
  session_inv p random now0 s ->
  (i < particleCount p)%nat ->
  collinear (geometry (points s)) i ->
  collinear (geometry (points (run s events))) i.
Proof.
  revert s. induction events as [|e events IH]; intros s Hs Hi Hcol.
  - exact Hcol.
  - rewrite run_cons. apply IH; [apply session_inv_event; exact Hs | exact Hi |].
    apply collinear_event; assumption.
Qed.

End RealFrames.

Section RealFormulas.

Local Open Scope R_scope.

Lemma r_of_real (rnd : Float32Array R) (i : nat) :
  r_of rnd i = get rnd i * 0.8 + 0.2.
Proof. unfold r_of. reals. lra. Qed.

Lemma pulse_of_real (p : Props R) (t : R) :
  pulse_of p t = sin (t * pulseSpeed p) * pulseAmplitude p.
Proof. reflexivity. Qed.

Lemma noise_of_real (t : R) (rnd : Float32Array R) (i : nat) :
  noise_of t rnd i = sin (t * (0.7 + r_of rnd i * 2.0) + INR i) * 0.005.
Proof.
  unfold noise_of. reals.
  replace (7 * / 10) with 0.7 by lra.
  replace (20 * / 10) with 2.0 by lra.
  replace (5 * / 1000) with 0.005 by lra.
  reflexivity.
Qed.

Lemma radius_of_real (p : Props R) (t : R) (rnd : Float32Array R) (i : nat) :
  radius_of p t rnd i = baseRadius p + pulse_of p t * r_of rnd i.
Proof. reflexivity. Qed.

Lemma elapsed_of_real (s : Session R) (now : R) :
  elapsed_of s now = (now - startTime s) / 1000.
Proof. unfold elapsed_of. reals. replace (1000 * / 1) with 1000 by lra. reflexivity. Qed.

(** Every real [t] is the elapsed time of some clock reading. *)
Lemma elapsed_of_onto (s : Session R) (t : R) :
  elapsed_of s (startTime s + 1000 * t) = t.
Proof. rewrite elapsed_of_real. field. Qed.

Lemma r_of_bounds (rnd : Float32Array R) (i : nat) :
  0 <= get rnd i < 1 -> 0.2 <= r_of rnd i <= 1.0.
Proof. intros Hu. rewrite r_of_real. lra. Qed.

End RealFormulas.

(* ===================================================================== *)
(** * Exact arithmetic: the claims about frames                           *)
(* ===================================================================== *)

Section RealFrameClaims.

Local Open Scope R_scope.

(** C1.  In every state of an activation (at construction, and after any
    sequence of frames at any clock readings, pauses and resumptions), the
    position of particle [i] is a scalar multiple of its normal, and that
    normal is still the one the layout computed. *)
Theorem positions_stay_on_normals (p : Props R) (random : nat -> R) (now0 : R)
    (events : list (Event R)) (i : nat) :
  (i < particleCount p)%nat ->
  let s := run (effect p random now0) events in
  collinear (geometry (points s)) i /\
  vec3 (array (normalVec (geometry (points s)))) i = vec3 (normals (layout p random)) i.
Proof.
  intros Hi s. split.
  - apply (collinear_run_from p random now0); [apply session_inv_effect | exact Hi |].
    apply collinear_effect. exact Hi.
  - destruct (session_inv_run p random now0 events) as (_ & _ & Hn & _).
    fold s in Hn. rewrite Hn. reflexivity.
Qed.

Lemma positions_stay_on_normals_witness :
  (7 < particleCount default_props)%nat /\
  let s := run (effect default_props half_draws 0)
             [Frame 16; Frame 33; ToggleRunning; Frame 50; ToggleRunning; Frame 66] in
  collinear (geometry (points s)) 7 /\
  vec3 (array (normalVec (geometry (points s)))) 7 =
  vec3 (normals (layout default_props half_draws)) 7.
Proof.
  assert (Hindex : (7 < particleCount default_props)%nat) by (cbn; lia).
  split; [exact Hindex|].
  exact (positions_stay_on_normals default_props half_draws 0
           [Frame 16; Frame 33; ToggleRunning; Frame 50; ToggleRunning; Frame 66]
           7 Hindex).
Defined.

(** C2.  A frame that runs while [running] is true, at elapsed time [t],
    stores at particle [i] the normal times
    [baseRadius + pulse * r + noise], with
    [pulse = sin (t * pulseSpeed) * pulseAmplitude],
    [r = jitterFactor[i] * 0.8 + 0.2] and
    [noise = sin (t * (0.7 + r * 2.0) + i) * 0.005]; and [r] lies in
    [0.2, 1.0] when [Math.random] returns values in [0, 1). *)
Theorem running_frame_formula (p : Props R) (random : nat -> R) (now0 : R)
    (events : list (Event R)) (now : R) (i : nat) :
  (forall k, 0 <= random k < 1) ->
  let s := run (effect p random now0) events in
  running s = true ->
  (i < particleCount p)%nat ->
  let t := elapsed_of s now in
  let normal := vec3 (array (normalVec (geometry (points s)))) i in
  let jitterFactor := get (array (aRandom (geometry (points s)))) i in
  let r := jitterFactor * 0.8 + 0.2 in
  let pulse := sin (t * pulseSpeed p) * pulseAmplitude p in
  let noise := sin (t * (0.7 + r * 2.0) + INR i) * 0.005 in
  0.2 <= r <= 1.0 /\
  vec3 (array (position (geometry (points (animate s now))))) i =
  scale3 (baseRadius p + pulse * r + noise) normal.
Proof.
  intros Hrandom s Hrunning Hi t normal jitterFactor r pulse noise.
  pose proof (session_inv_run p random now0 events) as Hs. fold s in Hs.
  assert (Hmirror : runningRef s = true).
  { destruct Hs as (_ & _ & _ & _ & _ & _ & _ & Hm & _). congruence. }
  assert (Hr : r_of (array (aRandom (geometry (points s)))) i = r)
    by apply r_of_real.
  split.
  - rewrite <- Hr. apply r_of_bounds.
    rewrite (session_random p random now0 s i Hs Hi). apply Hrandom.
  - rewrite (running_frame_entry p random now0 s now i Hs Hmirror Hi).
    rewrite noise_of_real, radius_of_real, pulse_of_real, Hr. reflexivity.
Qed.

Lemma running_frame_formula_witness :
  (forall k, 0 <= half_draws k < 1) /\
  let s := run (effect default_props half_draws 0) [Frame 16; Frame 33] in
  running s = true /\
  (7 < particleCount default_props)%nat /\
  let t := elapsed_of s 50 in
  let normal := vec3 (array (normalVec (geometry (points s)))) 7 in
  let jitterFactor := get (array (aRandom (geometry (points s)))) 7 in
  let r := jitterFactor * 0.8 + 0.2 in
  let pulse := sin (t * pulseSpeed default_props) * pulseAmplitude default_props in
  let noise := sin (t * (0.7 + r * 2.0) + INR 7) * 0.005 in
  0.2 <= r <= 1.0 /\
  vec3 (array (position (geometry (points (animate s 50))))) 7 =
  scale3 (baseRadius default_props + pulse * r + noise) normal.
Proof.
  assert (Hdraws : forall k, 0 <= half_draws k < 1)
    by (intros k; unfold half_draws; lra).
  assert (Hindex : (7 < particleCount default_props)%nat) by (cbn; lia).
  split; [exact Hdraws|]. split; [reflexivity|]. split; [exact Hindex|].
  exact (running_frame_formula default_props half_draws 0 [Frame 16; Frame 33] 50 7
           Hdraws eq_refl Hindex).
Defined.

(** C6.  After any history of an activation, whether running or paused,
    a frame at elapsed time [t] sets the rotation about y to
    [t * rotationSpeed] and about x to [t * rotationSpeed * 0.18], where
    [t] is the clock reading minus the start time, in seconds.  The angles
    are therefore the same after any other history of the activation. *)
Theorem rotation_is_a_function_of_time (p : Props R) (random : nat -> R) (now0 : R)
    (events : list (Event R)) (now : R) :
  let s := run (effect p random now0) events in
  let t := elapsed_of s now in
  t = (now - now0) / 1000 /\
  rotation_y (points (animate s now)) = t * rotationSpeed p /\
  rotation_x (points (animate s now)) = t * rotationSpeed p * 0.18 /\
  forall events',
    let s' := run (effect p random now0) events' in
    rotation_y (points (animate s' now)) = rotation_y (points (animate s now)) /\
    rotation_x (points (animate s' now)) = rotation_x (points (animate s now)).
Proof.
  assert (Hrot : forall evs,
    let s := run (effect p random now0) evs in
    rotation_y (points (animate s now)) = (now - now0) / 1000 * rotationSpeed p /\
    rotation_x (points (animate s now)) = (now - now0) / 1000 * rotationSpeed p * 0.18).
  { intros evs s.
    destruct (session_inv_run p random now0 evs) as (Hp & Ht & _ & _ & _ & _ & Href & _).
    fold s in Hp, Ht, Href.
    unfold animate; cbn [points rotation_x rotation_y]. rewrite Href.
    cbn [rotation_x rotation_y]. rewrite elapsed_of_real, Hp, Ht. reals.
    split; [reflexivity | lra]. }
  intros s t.
  assert (Ht : t = (now - now0) / 1000).
  { unfold t. rewrite elapsed_of_real.
    destruct (session_inv_run p random now0 events) as (_ & Hstart & _).
    fold s in Hstart. rewrite Hstart. reflexivity. }
  destruct (Hrot events) as [Hy Hx]. fold s in Hy, Hx.
  rewrite Ht. split; [reflexivity|]. split; [exact Hy|]. split; [exact Hx|].
  intros events' s'. destruct (Hrot events') as [Hy' Hx']. fold s' in Hy', Hx'.
  rewrite Hy, Hx, Hy', Hx'. split; reflexivity.
Qed.

(** C7.  With [pulseSpeed] nonzero, the radius of particle [i] (the base
    radius plus its local pulse, the noise left out) after one period
    [2 pi / pulseSpeed] is the radius it had. *)
Theorem radius_is_periodic (p : Props R) (rnd : Float32Array R) (i : nat) (t : R) :
  pulseSpeed p <> 0 ->
  radius_of p (t + 2 * PI / pulseSpeed p) rnd i = radius_of p t rnd i.
Proof.
  intros Hspeed. rewrite !radius_of_real, !pulse_of_real.
  replace ((t + 2 * PI / pulseSpeed p) * pulseSpeed p)
    with (t * pulseSpeed p + 2 * PI) by (field; exact Hspeed).
  rewrite sin_plus, sin_2PI, cos_2PI. f_equal. ring.
Qed.

Lemma radius_is_periodic_witness :
  pulseSpeed default_props <> 0 /\
  radius_of default_props (3 + 2 * PI / pulseSpeed default_props) [0.5; 0.25] 1 =
  radius_of default_props 3 [0.5; 0.25] 1.
Proof.
  assert (Hspeed : pulseSpeed default_props <> 0) by (cbn; lra).
  split; [exact Hspeed|].
  exact (radius_is_periodic default_props [0.5; 0.25] 1 3 Hspeed).
Defined.

End RealFrameClaims.

(* ===================================================================== *)
(** * Exact arithmetic: the distance from the origin                      *)
(* ===================================================================== *)

Section RealBand.

Local Open Scope R_scope.

(** The distance of particle [i] from the origin after a running frame is
    the absolute value of the factor applied to its unit normal. *)
Lemma running_frame_distance (p : Props R) (random : nat -> R) (now0 : R)
    (s : Session R) (now : R) (i : nat) :
  session_inv p random now0 s ->
  runningRef s = true ->
  (i < particleCount p)%nat ->
  let rnd := array (aRandom (geometry (points s))) in
  let t := elapsed_of s now in
  norm3 (vec3 (array (position (geometry (points (animate s now))))) i) =
  Rabs (baseRadius p + pulse_of p t * r_of rnd i + noise_of t rnd i).
Proof.
  intros Hs Hrunning Hi rnd t.
  rewrite (running_frame_entry p random now0 s now i Hs Hrunning Hi).
  rewrite norm3_scale3, (session_normal p random now0 s i Hs Hi), unit_vector.
  rewrite radius_of_real. fold rnd t. ring.
Qed.

Lemma local_pulse_bound (p : Props R) (t r : R) :
  0 <= pulseAmplitude p -> 0.2 <= r <= 1.0 ->
  - pulseAmplitude p <= pulse_of p t * r <= pulseAmplitude p.
Proof.
  intros Hamp Hr. rewrite pulse_of_real.
  pose proof (SIN_bound (t * pulseSpeed p)) as Hsin.
  set (sn := sin (t * pulseSpeed p)) in *. set (a := pulseAmplitude p) in *.
  assert (Har : 0 <= a * r <= a) by nra.
  replace (sn * a * r) with (sn * (a * r)) by ring.
  split; nra.
Qed.

Lemma noise_bound (t : R) (rnd : Float32Array R) (i : nat) :
  -0.005 <= noise_of t rnd i <= 0.005.
Proof.
  rewrite noise_of_real.
  pose proof (SIN_bound (t * (0.7 + r_of rnd i * 2.0) + INR i)) as Hsin.
  lra.
Qed.

End RealBand.

(* ===================================================================== *)
(** * Pausing at a concrete session                                      *)
(* ===================================================================== *)

Lemma paused_frame_keeps_positions_witness :
  let s := run (effect default_props half_draws 0%R)
             [Frame 16%R; ToggleRunning] in
  running s = false /\
  position (geometry (points (animate s 33%R))) = position (geometry (points s)).
Proof.
  split; [reflexivity|].
  exact (paused_frame_keeps_positions default_props half_draws 0%R
           [Frame 16%R; ToggleRunning] 33%R eq_refl).
Defined.


(* ===================================================================== *)
(** * The model at work on small inputs                                   *)
(* ===================================================================== *)

Section Runs.

Import Symbolic.

(** Mounting is the effect followed by one frame. *)
Lemma mount_is_first_frame {num : Type} `{JSNumber num}
    (p : Props num) (random : nat -> num) (now0 now1 : num) :
  mount p random now0 now1 = run (effect p random now0) [Frame now1].
Proof. reflexivity. Qed.

(** Two particles: six, six and two numbers, four calls of [Math.random];
    particle [i] keeps call [2 i + 1] as its random scalar. *)
Example layout_of_two :
  let b := layout (named_props 2) Draw in
  length (positions b) = 6 /\ length (normals b) = 6 /\
  randoms b = [Float32 (Draw 1); Float32 (Draw 3)] /\
  calls b = 4.
Proof. vm_compute. repeat split. Qed.

Example layout_of_none :
  let b := layout (named_props 0) Draw in
  positions b = [] /\ normals b = [] /\ randoms b = [] /\ calls b = 0.
Proof. vm_compute. repeat split. Qed.

(** The first component of the position of particle 1 uses call 2. *)
Example layout_position_entry :
  positions (layout (named_props 2) Draw) !! 3 =
  Some (Float32 (Times (x_of (named_props 2) 1)
                   (Plus (Name "baseRadius")
                      (Times (Minus (Draw 2) (Literal 0.5)) (Literal 0.02))))).
Proof. vm_compute. reflexivity. Qed.

(** A frame of a one-particle session writes the three components. *)
Example frame_of_one :
  let s := effect (named_props 1) Draw (Name "start") in
  let t := elapsed_of s (Name "now") in
  let rnd := array (aRandom (geometry (points s))) in
  let k := Plus (radius_of (named_props 1) t rnd 0) (noise_of t rnd 0) in
  array (position (geometry (points (animate s (Name "now"))))) =
  [Float32 (Times (Float32 (x_of (named_props 1) 0)) k);
   Float32 (Times (Float32 (y_of (named_props 1) 0)) k);
   Float32 (Times (Float32 (z_of (named_props 1) 0)) k)].
Proof. vm_compute. reflexivity. Qed.

(** The alert of the self-check, before and after the readiness timer. *)
Example quick_check_before :
  quickCheck (run (effect (named_props 3) Draw (Name "start")) [Frame (Name "now")]) =
  "Not ready yet — wait a moment after mount"%string.
Proof. vm_compute. reflexivity. Qed.

Example quick_check_after :
  quickCheck (run (effect (named_props 3) Draw (Name "start"))
                [Frame (Name "now"); ReadyTimer]) =
  ("Particles: 3" ++ newline ++ "position attribute count: 3" ++ newline
   ++ "count matches: true" ++ newline ++ "points object present: true")%string.
Proof. vm_compute. reflexivity. Qed.

End Runs.

(* ===================================================================== *)
(** * More about sessions, for every arithmetic                           *)
(* ===================================================================== *)

Section SessionFacts.

Context {num : Type} `{JSNumber num}.

Lemma running_run (s : Session num) (events : list (Event num)) :
  running (run s events) =
  if Nat.even (toggles events) then running s else negb (running s).
Proof.
  revert s. induction events as [|e events IH]; intros s.
  - reflexivity.
  - rewrite run_cons, IH. destruct e as [now| |]; cbn [handle_event].
    + reflexivity.
    + unfold toggles. cbn [List.filter is_toggle length].
      fold (toggles events). rewrite Nat.even_succ, <- Nat.negb_even.
      cbn [running toggleRunning].
      destruct (Nat.even (toggles events)), (running s); reflexivity.
    + reflexivity.
Qed.

(** X1.  In every state of an activation the component runs exactly when
    the operator has pressed Pause / Play an even number of times, and the
    flag that the frame loop reads, [runningRef], holds the same value:
    frames and the readiness timer never change it. *)
Theorem running_is_toggle_parity (p : Props num) (random : nat -> num) (now0 : num)
    (events : list (Event num)) :
  let s := run (effect p random now0) events in
  running s = Nat.even (toggles events) /\ runningRef s = running s.
Proof.
  intros s. split.
  - unfold s. rewrite running_run. cbn [running effect].
    destruct (Nat.even (toggles events)); reflexivity.
  - destruct (session_inv_run p random now0 events)
      as (_ & _ & _ & _ & _ & _ & _ & Hmirror & _).
    exact Hmirror.
Qed.

(** X2.  The buffers are never resized: in every state of an activation the
    position, normal and random-scalar arrays hold [3N], [3N] and [N]
    numbers, so every index that a frame reads or writes ([i * 3 + c] with
    [i < N] and [c < 3], and [i]) is inside its array: no read yields
    [undefined] and no store is dropped. *)
Theorem buffers_keep_their_size (p : Props num) (random : nat -> num) (now0 : num)
    (events : list (Event num)) :
  let g := geometry (points (run (effect p random now0) events)) in
  (length (array (position g)) = particleCount p * 3 /\
   length (array (normalVec g)) = particleCount p * 3 /\
   length (array (aRandom g)) = particleCount p) /\
  forall i c, i < particleCount p -> c < 3 ->
    is_Some (array (position g) !! (i * 3 + c)) /\
    is_Some (array (normalVec g) !! (i * 3 + c)) /\
    is_Some (array (aRandom g) !! i).
Proof.
  intros g.
  destruct (session_inv_run p random now0 events)
    as (_ & _ & Hn & Hr & Hlen & _).
  fold g in Hn, Hr, Hlen.
  destruct (layout_spec p random) as (_ & Hnrm & Hrnd & _).
  assert (Hsizes : length (array (position g)) = particleCount p * 3 /\
                   length (array (normalVec g)) = particleCount p * 3 /\
                   length (array (aRandom g)) = particleCount p).
  { rewrite Hn, Hr. cbn. auto. }
  split; [exact Hsizes|].
  destruct Hsizes as (Hp' & Hn' & Hr').
  intros i c Hi Hc. repeat split; apply lookup_lt_is_Some_2; lia.
Qed.

(** X3.  The self-check cannot report a mismatch.  For every particle count
    [N] (zero included), in every state reached after the readiness timer
    has fired, the alert reports [N] particles, position count [N], "count
    matches" true and "points object present" true; the [null] count is
    never shown. *)
Theorem self_check_always_matches (p : Props num) (random : nat -> num) (now0 : num)
    (events : list (Event num)) :
  ReadyTimer ∈ events ->
  quickCheck (run (effect p random now0) events) =
  report_message (particleCount p) (Some (particleCount p)) true true.
Proof.
  intros Hfired.
  apply (quickCheck_published p random now0).
  - apply session_inv_run.
  - rewrite readyInfo_fired by exact Hfired.
    cbn. rewrite props_run. reflexivity.
Qed.

End SessionFacts.

(* ===================================================================== *)
(** * Frames do not accumulate, for every arithmetic                      *)
(* ===================================================================== *)

Section FrameFacts.

Context {num : Type} `{JSNumber num}.

Variable p : Props num.

(** The update depends on the geometry through its normals, its random
    scalars and the shape of its position attribute only. *)
Lemma update_positions_ext (t : num) (g g' : BufferGeometry num) :
  normalVec g = normalVec g' ->
  aRandom g = aRandom g' ->
  itemSize (position g) = itemSize (position g') ->
  length (array (position g)) = particleCount p * 3 ->
  length (array (position g')) = particleCount p * 3 ->
  update_positions p t g = update_positions p t g'.
Proof.
  intros Hn Hr Hsize Hlen Hlen'. unfold update_positions.
  rewrite Hn, Hr, Hsize.
  rewrite (update_loop_overwrites p t _ _ _ _ Hlen Hlen'). reflexivity.
Qed.

Lemma layout_normals_any (random random' : nat -> num) :
  normals (layout p random) = normals (layout p random').
Proof.
  destruct (layout_spec p random) as (_ & Hlen & _ & _ & Hentries).
  destruct (layout_spec p random') as (_ & Hlen' & _ & _ & Hentries').
  apply array_ext; [congruence|].
  intros j Hj. rewrite Hlen in Hj.
  destruct (index_split _ _ Hj) as (i & c & Hi & Hc & ->).
  destruct (Hentries i Hi) as (Hx & Hy & Hz & _).
  destruct (Hentries' i Hi) as (Hx' & Hy' & Hz' & _).
  assert (Hcases : c = 0 \/ c = 1 \/ c = 2) by lia.
  destruct Hcases as [->|[->| ->]]; rewrite ?Nat.add_0_r; congruence.
Qed.

Lemma layout_randoms_odd (random random' : nat -> num) :
  (forall k, random (2 * k + 1) = random' (2 * k + 1)) ->
  randoms (layout p random) = randoms (layout p random').
Proof.
  intros Hodd.
  destruct (layout_spec p random) as (_ & _ & Hlen & _ & Hentries).
  destruct (layout_spec p random') as (_ & _ & Hlen' & _ & Hentries').
  apply array_ext; [congruence|].
  intros i Hi. rewrite Hlen in Hi.
  destruct (Hentries i Hi) as (_ & _ & _ & _ & _ & _ & Hr).
  destruct (Hentries' i Hi) as (_ & _ & _ & _ & _ & _ & Hr').
  rewrite Hr, Hr', Hodd. reflexivity.
Qed.

(** X4.  The one-time jitter of the layout never reaches the screen.  The
    component starts running and calls [animate] at once, which overwrites
    every position from the normals; so the mounted component is the same
    whatever the even-numbered calls of [Math.random] (the jitter draws)
    returned. *)
Theorem mount_ignores_jitter_draws (random random' : nat -> num) (now0 now1 : num) :
  (forall k, random (2 * k + 1) = random' (2 * k + 1)) ->
  mount p random now0 now1 = mount p random' now0 now1.
Proof.
  intros Hodd. unfold mount, animate.
  cbn [effect props startTime points pointsRef runningRef running readyInfo
       geometry rotation_x rotation_y].
  assert (Hgeom :
    update_positions p (elapsed_of (effect p random now0) now1)
      (build_geometry (layout p random)) =
    update_positions p (elapsed_of (effect p random' now0) now1)
      (build_geometry (layout p random'))).
  { destruct (layout_spec p random) as (Hlen & _).
    destruct (layout_spec p random') as (Hlen' & _).
    apply update_positions_ext; unfold build_geometry; cbn;
      rewrite ?(layout_normals_any random random'),
              ?(layout_randoms_odd random random' Hodd);
      auto. }
  rewrite Hgeom. reflexivity.
Qed.

(** X5.  Frames do not accumulate: in every state of an activation, a
    frame at clock reading [now1] followed by a frame at [now2] leaves the
    session exactly as the frame at [now2] alone does, running or paused.
    A dropped or an extra frame therefore changes nothing later. *)
Theorem last_frame_wins (random : nat -> num) (now0 : num)
    (events : list (Event num)) (now1 now2 : num) :
  let s := run (effect p random now0) events in
  animate (animate s now1) now2 = animate s now2.
Proof.
  intros s.
  destruct (session_inv_run p random now0 events)
    as (Hp & _ & _ & _ & Hlen & _ & Href & _).
  fold s in Hp, Hlen, Href.
  unfold animate at 1 3.
  cbn [props startTime pointsRef runningRef running readyInfo animate points].
  rewrite Href.
  assert (Helapsed : elapsed_of (animate s now1) now2 = elapsed_of s now2)
    by reflexivity.
  rewrite Helapsed.
  destruct (runningRef s) eqn:Hrunning; [|reflexivity].
  cbn [geometry].
  assert (Hgeom :
    update_positions (props s) (elapsed_of s now2)
      (update_positions (props s) (elapsed_of s now1) (geometry (points s))) =
    update_positions (props s) (elapsed_of s now2) (geometry (points s))).
  { rewrite Hp. apply update_positions_ext; try reflexivity.
    - apply update_positions_length. exact Hlen.
    - exact Hlen. }
  rewrite Hgeom. reflexivity.
Qed.

(** X6.  Pausing does not shift the animation.  After any two histories of
    one activation that both end running, the frame at the same clock
    reading leaves the same Points object (positions, attributes and
    rotation): on Play the cloud is where it would have been without the
    pause. *)
Theorem resume_without_drift (random : nat -> num) (now0 : num)
    (events events' : list (Event num)) (now : num) :
  let s := run (effect p random now0) events in
  let s' := run (effect p random now0) events' in
  running s = true ->
  running s' = true ->
  points (animate s now) = points (animate s' now).
Proof.
  intros s s' Hrun Hrun'.
  destruct (session_inv_run p random now0 events)
    as (Hp & Ht & Hn & Hr & Hlen & Hsize & Href & Hmirror & _).
  destruct (session_inv_run p random now0 events')
    as (Hp' & Ht' & Hn' & Hr' & Hlen' & Hsize' & Href' & Hmirror' & _).
  fold s in Hp, Ht, Hn, Hr, Hlen, Hsize, Href, Hmirror.
  fold s' in Hp', Ht', Hn', Hr', Hlen', Hsize', Href', Hmirror'.
  unfold animate. cbn [points].
  rewrite Href, Href', Hmirror, Hmirror', Hrun, Hrun'.
  cbn [geometry].
  assert (Helapsed : elapsed_of s now = elapsed_of s' now)
    by (unfold elapsed_of; rewrite Ht, Ht'; reflexivity).
  rewrite Hp, Hp', Helapsed.
  rewrite (update_positions_ext (elapsed_of s' now) (geometry (points s))
             (geometry (points s'))) by congruence.
  reflexivity.
Qed.

End FrameFacts.

(* ===================================================================== *)
(** * Exact arithmetic: more about the layout and the pulse               *)
(* ===================================================================== *)

Section RealFacts.

Local Open Scope R_scope.

Lemma z_of_real (p : Props R) (i : nat) :
  (i < particleCount p)%nat ->
  z_of p i = 1 - 2 * (INR i + 0.5) / INR (particleCount p).
Proof.
  intros Hi.
  destruct (phi_argument_in_range p i Hi) as (Hphi & Hrange & _).
  unfold z_of. rewrite Hphi. reals. apply cos_acos. exact Hrange.
Qed.

Lemma height_real (p : Props R) (random : nat -> R) (k : nat) :
  (k < particleCount p)%nat ->
  get (normals (layout p random)) (k * 3 + 2) =
  1 - 2 * (INR k + 0.5) / INR (particleCount p).
Proof.
  intros Hk.
  destruct (layout_entries p random k Hk) as (Hn & _).
  unfold vec3 in Hn. injection Hn as _ _ Hz. rewrite Hz. apply z_of_real. exact Hk.
Qed.

Lemma height_bounds (p : Props R) (random : nat -> R) (i j : nat) :
  (i < j)%nat -> (j < particleCount p)%nat ->
  -1 < get (normals (layout p random)) (j * 3 + 2)
     < get (normals (layout p random)) (i * 3 + 2) /\
  get (normals (layout p random)) (i * 3 + 2) < 1.
Proof.
  intros Hij Hj.
  rewrite (height_real p random i) by lia.
  rewrite (height_real p random j) by exact Hj.
  assert (Hn : 0 < INR (particleCount p)) by (apply lt_0_INR; lia).
  assert (Hd : 0 < / INR (particleCount p)) by (apply Rinv_0_lt_compat; exact Hn).
  assert (Hone : INR (particleCount p) * / INR (particleCount p) = 1)
    by (apply Rinv_r; lra).
  assert (Hi0 : 0 <= INR i) by apply pos_INR.
  assert (Hlt : INR i < INR j) by (apply lt_INR; exact Hij).
  assert (Hjn : INR j + 1 <= INR (particleCount p)).
  { rewrite <- S_INR. apply le_INR. lia. }
  unfold Rdiv. set (d := / INR (particleCount p)) in *.
  repeat split; nra.
Qed.

(** X7.  The heights of the normals are equally spaced: the z component of
    normal [i] is [1 - 2 (i + 0.5) / N], strictly between -1 and 1 (no
    particle sits on a pole), and it strictly decreases as [i] grows. *)
Theorem normal_heights_descend (p : Props R) (random : nat -> R) (i j : nat) :
  (i < j)%nat ->
  (j < particleCount p)%nat ->
  let height := fun k => get (normals (layout p random)) (k * 3 + 2) in
  height i = 1 - 2 * (INR i + 0.5) / INR (particleCount p) /\
  height j = 1 - 2 * (INR j + 0.5) / INR (particleCount p) /\
  -1 < height j < height i /\ height i < 1.
Proof.
  intros Hij Hj height. unfold height.
  split; [apply height_real; lia|].
  split; [apply height_real; exact Hj|].
  apply height_bounds; assumption.
Qed.

Lemma normal_heights_descend_witness :
  (3 < 7)%nat /\ (7 < particleCount default_props)%nat /\
  let height := fun k => get (normals (layout default_props half_draws)) (k * 3 + 2) in
  height 3%nat = 1 - 2 * (INR 3 + 0.5) / INR (particleCount default_props) /\
  height 7%nat = 1 - 2 * (INR 7 + 0.5) / INR (particleCount default_props) /\
  -1 < height 7%nat < height 3%nat /\ height 3%nat < 1.
Proof.
  assert (H1 : (3 < 7)%nat) by lia.
  assert (H2 : (7 < particleCount default_props)%nat) by (cbn; lia).
  split; [exact H1|]. split; [exact H2|].
  exact (normal_heights_descend default_props half_draws 3 7 H1 H2).
Defined.

(** X8.  No two particles share a normal: the normals of distinct indices
    below [N] differ (in their height already). *)
Theorem normals_are_distinct (p : Props R) (random : nat -> R) (i j : nat) :
  (i < particleCount p)%nat ->
  (j < particleCount p)%nat ->
  i <> j ->
  vec3 (normals (layout p random)) i <> vec3 (normals (layout p random)) j.
Proof.
  intros Hi Hj Hne Heq.
  unfold vec3 in Heq. injection Heq as _ _ Hz.
  destruct (Nat.lt_total i j) as [Hlt|[Heq|Hgt]]; [| contradiction |].
  - destruct (height_bounds p random i j Hlt Hj) as ((_ & Hdesc) & _). lra.
  - destruct (height_bounds p random j i Hgt Hi) as ((_ & Hdesc) & _). lra.
Qed.

Lemma normals_are_distinct_witness :
  (3 < particleCount default_props)%nat /\
  (7 < particleCount default_props)%nat /\
  3%nat <> 7%nat /\
  vec3 (normals (layout default_props half_draws)) 3 <>
  vec3 (normals (layout default_props half_draws)) 7.
Proof.
  assert (H1 : (3 < particleCount default_props)%nat) by (cbn; lia).
  assert (H2 : (7 < particleCount default_props)%nat) by (cbn; lia).
  assert (H3 : 3%nat <> 7%nat) by lia.
  split; [exact H1|]. split; [exact H2|]. split; [exact H3|].
  exact (normals_are_distinct default_props half_draws 3 7 H1 H2 H3).
Defined.

(** X9.  The cloud breathes in unison: at any elapsed time the local pulse
    of every particle has the sign of the shared pulse, and its size is
    between 20% and 100% of it, when [Math.random] returns values in
    [0, 1). *)
Theorem local_pulses_move_together (p : Props R) (random : nat -> R) (now0 : R)
    (events : list (Event R)) (now : R) (i : nat) :
  (forall k, 0 <= random k < 1) ->
  (i < particleCount p)%nat ->
  let s := run (effect p random now0) events in
  let t := elapsed_of s now in
  let shared := pulse_of p t in
  let own := localPulse_of p t (array (aRandom (geometry (points s)))) i in
  0 <= own * shared /\ 0.2 * Rabs shared <= Rabs own <= Rabs shared.
Proof.
  intros Hrandom Hi s t shared own.
  pose proof (session_inv_run p random now0 events) as Hs. fold s in Hs.
  set (rnd := array (aRandom (geometry (points s)))) in *.
  assert (Hr : 0.2 <= r_of rnd i <= 1.0).
  { apply r_of_bounds. unfold rnd.
    rewrite (session_random p random now0 s i Hs Hi). apply Hrandom. }
  assert (Hown : own = shared * r_of rnd i) by reflexivity.
  rewrite Hown. set (r := r_of rnd i) in *.
  rewrite Rabs_mult, (Rabs_right r) by lra.
  pose proof (Rabs_pos shared) as Habs.
  split; [|split]; nra.
Qed.

Lemma local_pulses_move_together_witness :
  (forall k, 0 <= half_draws k < 1) /\
  (7 < particleCount default_props)%nat /\
  let s := run (effect default_props half_draws 0) [Frame 16; ToggleRunning] in
  let t := elapsed_of s 33 in
  let shared := pulse_of default_props t in
  let own := localPulse_of default_props t (array (aRandom (geometry (points s)))) 7 in
  0 <= own * shared /\ 0.2 * Rabs shared <= Rabs own <= Rabs shared.
Proof.
  assert (Hdraws : forall k, 0 <= half_draws k < 1)
    by (intros k; unfold half_draws; lra).
  assert (Hindex : (7 < particleCount default_props)%nat) by (cbn; lia).
  split; [exact Hdraws|]. split; [exact Hindex|].
  exact (local_pulses_move_together default_props half_draws 0
           [Frame 16; ToggleRunning] 33 7 Hdraws Hindex).
Defined.

(** X10.  Particles stay on the outward side of their normals.  With
    [pulseAmplitude >= 0] and [baseRadius > pulseAmplitude + 0.005], and
    [Math.random] returning values in [0, 1), a frame that runs while
    [running] is true stores the normal times a positive factor, and that
    factor is the particle's distance from the origin. *)
Theorem running_frame_is_outward (p : Props R) (random : nat -> R) (now0 : R)
    (events : list (Event R)) (now : R) (i : nat) :
  (forall k, 0 <= random k < 1) ->
  0 <= pulseAmplitude p ->
  pulseAmplitude p + 0.005 < baseRadius p ->
  let s := run (effect p random now0) events in
  running s = true ->
  (i < particleCount p)%nat ->
  let after := array (position (geometry (points (animate s now)))) in
  exists k : R,
    0 < k /\
    vec3 after i = scale3 k (vec3 (normals (layout p random)) i) /\
    norm3 (vec3 after i) = k.
Proof.
  intros Hrandom Hamp Hbase s Hrunning Hi after.
  pose proof (session_inv_run p random now0 events) as Hs. fold s in Hs.
  assert (Hmirror : runningRef s = true).
  { destruct Hs as (_ & _ & _ & _ & _ & _ & _ & Hm & _). congruence. }
  set (rnd := array (aRandom (geometry (points s)))).
  set (t := elapsed_of s now).
  assert (Hr : 0.2 <= r_of rnd i <= 1.0).
  { apply r_of_bounds. unfold rnd.
    rewrite (session_random p random now0 s i Hs Hi). apply Hrandom. }
  pose proof (local_pulse_bound p t (r_of rnd i) Hamp Hr) as Hpulse.
  pose proof (noise_bound t rnd i) as Hnoise.
  exists (baseRadius p + pulse_of p t * r_of rnd i + noise_of t rnd i).
  split; [lra|]. split.
  - unfold after. rewrite (running_frame_entry p random now0 s now i Hs Hmirror Hi).
    rewrite (session_normal p random now0 s i Hs Hi).
    destruct (layout_entries p random i Hi) as (Hn & _). rewrite Hn.
    reflexivity.
  - unfold after. rewrite (running_frame_distance p random now0 s now i Hs Hmirror Hi).
    fold rnd t. apply Rabs_right. lra.
Qed.

Lemma running_frame_is_outward_witness :
  (forall k, 0 <= half_draws k < 1) /\
  0 <= pulseAmplitude default_props /\
  pulseAmplitude default_props + 0.005 < baseRadius default_props /\
  let s := run (effect default_props half_draws 0) [Frame 16; Frame 33] in
  running s = true /\
  (7 < particleCount default_props)%nat /\
  let after := array (position (geometry (points (animate s 50)))) in
  exists k : R,
    0 < k /\
    vec3 after 7 = scale3 k (vec3 (normals (layout default_props half_draws)) 7) /\
    norm3 (vec3 after 7) = k.
Proof.
  assert (Hdraws : forall k, 0 <= half_draws k < 1)
    by (intros k; unfold half_draws; lra).
  assert (Hamp : 0 <= pulseAmplitude default_props) by (cbn; lra).
  assert (Hbase : pulseAmplitude default_props + 0.005 < baseRadius default_props)
    by (cbn; lra).
  assert (Hindex : (7 < particleCount default_props)%nat) by (cbn; lia).
  split; [exact Hdraws|]. split; [exact Hamp|]. split; [exact Hbase|].
  split; [reflexivity|]. split; [exact Hindex|].
  exact (running_frame_is_outward default_props half_draws 0 [Frame 16; Frame 33] 50 7
           Hdraws Hamp Hbase eq_refl Hindex).
Defined.

End RealFacts.

(* ===================================================================== *)
(** * Releasing the resources                                             *)
(* ===================================================================== *)

(** X11.  A failing [dispose] of the geometry, the material or the
    renderer stops nothing.  Whenever [controls.dispose()] returns, the
    cleanup runs to its end whichever of the three guarded calls raise: the
    frame is cancelled, the listener removed, the canvas detached, both
    refs are null, the Points object is out of the scene if [pointsRef]
    held it, and exactly the objects whose [dispose] returned have been
    disposed, in source order. *)
Theorem cleanup_survives_failing_dispose (throws : Disposable -> bool) (r : Resources) :
  throws Controls = false ->
  let r' := fst (cleanup throws r) in
  snd (cleanup throws r) = Completed /\
  frame_pending r' = false /\
  resize_listening r' = false /\
  canvas_attached r' = false /\
  held_pointsRef r' = null /\
  held_rendererRef r' = null /\
  in_scene r' = (if truthy (held_pointsRef r) then false else in_scene r) /\
  disposed r' =
    disposed r ++ Controls :: List.filter (fun d => negb (throws d)) [Geometry; Material; Renderer].
Proof.
  intros Hcontrols r'. subst r'.
  unfold cleanup, try_dispose, call_dispose. rewrite Hcontrols.
  cbn [List.filter].
  destruct (throws Geometry), (throws Material), (throws Renderer);
    cbn [fst snd frame_pending resize_listening canvas_attached held_pointsRef
         held_rendererRef in_scene disposed negb];
    rewrite <- ?app_assoc; cbn [app];
    repeat split; destruct (canvas_attached r); reflexivity.
Qed.

Lemma cleanup_survives_failing_dispose_witness :
  let throws := fun d => match d with Material => true | _ => false end in
  throws Controls = false /\
  let r' := fst (cleanup throws acquired) in
  snd (cleanup throws acquired) = Completed /\
  frame_pending r' = false /\
  resize_listening r' = false /\
  canvas_attached r' = false /\
  held_pointsRef r' = null /\
  held_rendererRef r' = null /\
  in_scene r' = (if truthy (held_pointsRef acquired) then false else in_scene acquired) /\
  disposed r' =
    disposed acquired
    ++ Controls :: List.filter (fun d => negb (throws d)) [Geometry; Material; Renderer].
Proof.
  intros throws. split; [reflexivity|].
  exact (cleanup_survives_failing_dispose throws acquired eq_refl).
Defined.

(** X12.  [controls.dispose()] is not guarded.  If it raises, the cleanup
    stops there: the frame is cancelled and the listener removed, but
    nothing else is released; the scene, the canvas, the list of disposed
    objects and both refs are as they were. *)
Theorem cleanup_stops_when_controls_fail (throws : Disposable -> bool) (r : Resources) :
  throws Controls = true ->
  let r' := fst (cleanup throws r) in
  snd (cleanup throws r) = Threw Controls /\
  frame_pending r' = false /\
  resize_listening r' = false /\
  in_scene r' = in_scene r /\
  canvas_attached r' = canvas_attached r /\
  disposed r' = disposed r /\
  held_pointsRef r' = held_pointsRef r /\
  held_rendererRef r' = held_rendererRef r.
Proof.
  intros Hcontrols r'. subst r'.
  unfold cleanup, call_dispose. rewrite Hcontrols. cbn. repeat split.
Qed.

Lemma cleanup_stops_when_controls_fail_witness :
  let throws := fun d => match d with Controls => true | _ => false end in
  throws Controls = true /\
  let r' := fst (cleanup throws acquired) in
  snd (cleanup throws acquired) = Threw Controls /\
  frame_pending r' = false /\
  resize_listening r' = false /\
  in_scene r' = in_scene acquired /\
  canvas_attached r' = canvas_attached acquired /\
  disposed r' = disposed acquired /\
  held_pointsRef r' = held_pointsRef acquired /\
  held_rendererRef r' = held_rendererRef acquired.
Proof.
  intros throws. split; [reflexivity|].
  exact (cleanup_stops_when_controls_fail throws acquired eq_refl).
Defined.

(* ===================================================================== *)
(** * The overlay                                                         *)
(* ===================================================================== *)

Section Overlay.

Context {num : Type} `{JSNumber num}.

Lemma string_of_nat_is_not_loading (n : nat) :
  string_of_nat n <> "loading..."%string.
Proof.
  unfold string_of_nat. destruct (Nat.to_uint n); cbn; discriminate.
Qed.

(** X13.  The overlay tells the truth about the session.  In every state
    of an activation the button offers "Pause" (and the readout says "yes")
    exactly when frames update the positions, that is, when [runningRef] is
    true; the particle readout shows "loading..." exactly when the
    self-check would answer not ready; and once the readiness timer has
    fired it shows the particle count. *)
Theorem overlay_agrees_with_session (p : Props num) (random : nat -> num) (now0 : num)
    (events : list (Event num)) :
  let s := run (effect p random now0) events in
  button_label s = (if runningRef s then "Pause" else "Play")%string /\
  running_readout s = (if runningRef s then "yes" else "no")%string /\
  (particles_readout s = "loading..."%string <-> quickCheck s = not_ready_message) /\
  (ReadyTimer ∈ events -> particles_readout s = string_of_nat (particleCount p)).
Proof.
  intros s.
  destruct (session_inv_run p random now0 events)
    as (_ & _ & _ & _ & _ & _ & _ & Hmirror & _).
  fold s in Hmirror.
  unfold button_label, running_readout. rewrite Hmirror.
  split; [reflexivity|]. split; [reflexivity|]. split.
  - unfold particles_readout, quickCheck.
    destruct (readyInfo s) as [info|]; [|tauto].
    split; intros Habs.
    + exfalso. exact (string_of_nat_is_not_loading _ Habs).
    + exfalso. symmetry in Habs. exact (not_ready_is_distinct _ _ _ _ Habs).
  - intros Hfired. unfold particles_readout, s.
    rewrite readyInfo_fired by exact Hfired.
    reflexivity.
Qed.

End Overlay.

Section SessionFactsAtWork.

Import Symbolic.

Lemma self_check_always_matches_witness :
  let events := [Frame (Name "t1"); ReadyTimer; ToggleRunning] in
  ReadyTimer ∈ events /\
  quickCheck (run (effect (named_props 0) Draw (Name "t0")) events) =
  report_message 0 (Some 0) true true.
Proof.
  intros events.
  assert (Hfired : ReadyTimer ∈ events).
  { unfold events. apply elem_of_cons. right. apply elem_of_cons. left. reflexivity. }
  split; [exact Hfired|].
  exact (self_check_always_matches (named_props 0) Draw
           (Name "t0") events Hfired).
Defined.

Lemma odd_call_is_not_even (k : nat) : Nat.even (2 * k + 1) = false.
Proof.
  rewrite Nat.add_comm, Nat.even_add_mul_2. reflexivity.
Qed.

Lemma mount_ignores_jitter_draws_witness :
  let random' := fun k => if Nat.even k then Literal 0 else Draw k in
  (forall k, Draw (2 * k + 1) = random' (2 * k + 1)) /\
  mount (named_props 5) Draw (Name "t0") (Name "t1") =
  mount (named_props 5) random' (Name "t0") (Name "t1").
Proof.
  intros random'.
  assert (Hodd : forall k, Draw (2 * k + 1) = random' (2 * k + 1)).
  { intros k. unfold random'. rewrite odd_call_is_not_even. reflexivity. }
  split; [exact Hodd|].
  exact (mount_ignores_jitter_draws (named_props 5) Draw random'
           (Name "t0") (Name "t1") Hodd).
Defined.

Lemma resume_without_drift_witness :
  let s := run (effect (named_props 5) Draw (Name "t0")) [Frame (Name "t1")] in
  let s' := run (effect (named_props 5) Draw (Name "t0"))
              [Frame (Name "t1"); ToggleRunning; Frame (Name "t2"); ToggleRunning] in
  running s = true /\
  running s' = true /\
  points (animate s (Name "t3")) = points (animate s' (Name "t3")).
Proof.
  intros s s'. split; [reflexivity|]. split; [reflexivity|].
  exact (resume_without_drift (named_props 5) Draw (Name "t0")
           [Frame (Name "t1")]
           [Frame (Name "t1"); ToggleRunning; Frame (Name "t2"); ToggleRunning]
           (Name "t3") eq_refl eq_refl).
Defined.

End SessionFactsAtWork.

(* ===================================================================== *)
(** * Rounding to binary32                                                *)
(* ===================================================================== *)

Section Binary32.

Local Open Scope R_scope.

Lemma ln2_pos : 0 < ln 2.
Proof. rewrite <- ln_1. apply ln_increasing; lra. Qed.

Lemma pow2_exp (e : Z) : powerRZ 2 e = exp (IZR e * ln 2).
Proof. rewrite powerRZ_Rpower by lra. reflexivity. Qed.

Lemma pow2_pos (e : Z) : 0 < powerRZ 2 e.
Proof. apply powerRZ_lt. lra. Qed.

Lemma pow2_lt (a b : Z) : (a < b)%Z -> powerRZ 2 a < powerRZ 2 b.
Proof.
  intros Hab. rewrite !pow2_exp. apply exp_increasing.
  apply Rmult_lt_compat_r; [apply ln2_pos | apply IZR_lt; exact Hab].
Qed.

Lemma pow2_le (a b : Z) : (a <= b)%Z -> powerRZ 2 a <= powerRZ 2 b.
Proof.
  intros Hab. destruct (Z.eq_dec a b) as [->|Hne]; [lra|].
  left. apply pow2_lt. lia.
Qed.

Lemma pow2_lt_inv (a b : Z) : powerRZ 2 a < powerRZ 2 b -> (a < b)%Z.
Proof.
  intros Hlt. destruct (Z_lt_le_dec a b) as [H|H]; [exact H|].
  apply pow2_le in H. lra.
Qed.

Lemma pow2_add (a b : Z) : powerRZ 2 (a + b) = powerRZ 2 a * powerRZ 2 b.
Proof. apply powerRZ_add. lra. Qed.

Lemma pow2_neg (a : Z) : powerRZ 2 (- a) * powerRZ 2 a = 1.
Proof. rewrite <- pow2_add. replace (- a + a)%Z with 0%Z by lia. reflexivity. Qed.

Lemma ilog2_spec (x : R) :
  0 < x -> powerRZ 2 (ilog2 x) <= x < powerRZ 2 (ilog2 x + 1).
Proof.
  intros Hx. unfold ilog2.
  set (y := ln x / ln 2).
  destruct (base_Int_part y) as [Hlo Hhi].
  pose proof ln2_pos as H2.
  assert (Hy : y * ln 2 = ln x) by (unfold y; field; lra).
  assert (Hex : exp (y * ln 2) = x) by (rewrite Hy; apply exp_ln; exact Hx).
  rewrite !pow2_exp, plus_IZR. split.
  - apply Rle_trans with (exp (y * ln 2)); [|lra].
    destruct Hlo as [Hlo|Hlo].
    + left. apply exp_increasing. apply Rmult_lt_compat_r; assumption.
    + rewrite Hlo. lra.
  - apply Rle_lt_trans with (exp (y * ln 2)); [lra|].
    apply exp_increasing. apply Rmult_lt_compat_r; [assumption|lra].
Qed.

Lemma ilog2_unique (x : R) (e : Z) :
  powerRZ 2 e <= x < powerRZ 2 (e + 1) -> ilog2 x = e.
Proof.
  intros [Hlo Hhi].
  assert (Hx : 0 < x) by (pose proof (pow2_pos e); lra).
  destruct (ilog2_spec x Hx) as [Hlo' Hhi'].
  assert (H1 : (e < ilog2 x + 1)%Z) by (apply pow2_lt_inv; lra).
  assert (H2 : (ilog2 x < e + 1)%Z) by (apply pow2_lt_inv; lra).
  lia.
Qed.

Lemma floor_spec (y : R) : IZR (Int_part y) <= y < IZR (Int_part y) + 1.
Proof. destruct (base_Int_part y). lra. Qed.

Lemma floor_IZR (n : Z) : Int_part (IZR n) = n.
Proof. symmetry. apply Int_part_spec. lra. Qed.

Lemma rne_error (y : R) : Rabs (IZR (rne y) - y) <= 1 / 2.
Proof.
  unfold rne. pose proof (floor_spec y) as Hf.
  set (f := Int_part y) in *.
  destruct (Rlt_dec (y - IZR f) (1 / 2)) as [H1|H1].
  - apply Rabs_le. lra.
  - destruct (Rlt_dec (1 / 2) (y - IZR f)) as [H2|H2].
    + rewrite plus_IZR. apply Rabs_le. lra.
    + destruct (Z.even f); [|rewrite plus_IZR]; apply Rabs_le; lra.
Qed.

Lemma rne_IZR (n : Z) : rne (IZR n) = n.
Proof.
  unfold rne. rewrite floor_IZR.
  destruct (Rlt_dec (IZR n - IZR n) (1 / 2)) as [H|H]; [reflexivity|lra].
Qed.

Lemma rne_le (y : R) (n : Z) : y <= IZR n -> (rne y <= n)%Z.
Proof.
  intros Hy. unfold rne. pose proof (floor_spec y) as Hf.
  set (f := Int_part y) in *.
  assert (Hfn : (f <= n)%Z) by (apply le_IZR; lra).
  destruct (Z.eq_dec f n) as [Heq|Hne].
  - assert (y = IZR f) by (rewrite Heq in *; lra).
    destruct (Rlt_dec (y - IZR f) (1 / 2)); [lia|lra].
  - destruct (Rlt_dec (y - IZR f) (1 / 2)); [lia|].
    destruct (Rlt_dec (1 / 2) (y - IZR f)); [lia|].
    destruct (Z.even f); lia.
Qed.

Lemma rne_ge (y : R) (n : Z) : IZR n <= y -> (n <= rne y)%Z.
Proof.
  intros Hy. unfold rne. pose proof (floor_spec y) as Hf.
  set (f := Int_part y) in *.
  assert (Hfn : (n <= f)%Z).
  { apply Z.lt_succ_r. apply lt_IZR. rewrite succ_IZR. lra. }
  destruct (Rlt_dec (y - IZR f) (1 / 2)); [lia|].
  destruct (Rlt_dec (1 / 2) (y - IZR f)); [lia|].
  destruct (Z.even f); lia.
Qed.

Lemma pow2_IZR (z : Z) : (0 <= z)%Z -> powerRZ 2 z = IZR (2 ^ z).
Proof.
  intros Hz. rewrite <- (Z2Nat.id z Hz) at 1.
  rewrite <- pow_powerRZ, pow_IZR, Z2Nat.id by exact Hz. reflexivity.
Qed.

Lemma exponent_ge (x : R) : (-149 <= float32_exponent x)%Z.
Proof. unfold float32_exponent. lia. Qed.

Lemma exponent_lt (x : R) : Rabs x < powerRZ 2 (float32_exponent x + 24).
Proof.
  unfold float32_exponent.
  destruct (Req_dec x 0) as [->|Hx].
  - rewrite Rabs_R0. apply pow2_pos.
  - destruct (ilog2_spec (Rabs x) (Rabs_pos_lt x Hx)) as [_ Hhi].
    apply Rlt_le_trans with (1 := Hhi). apply pow2_le. lia.
Qed.

Lemma exponent_normal (x : R) :
  powerRZ 2 (-126) <= Rabs x ->
  powerRZ 2 (float32_exponent x + 23) <= Rabs x.
Proof.
  intros Hx.
  assert (Hpos : 0 < Rabs x) by (pose proof (pow2_pos (-126)); lra).
  destruct (ilog2_spec (Rabs x) Hpos) as [Hlo Hhi].
  assert (H : (-126 < ilog2 (Rabs x) + 1)%Z) by (apply pow2_lt_inv; lra).
  unfold float32_exponent.
  replace (Z.max (ilog2 (Rabs x)) (-126) - 23 + 23)%Z with (ilog2 (Rabs x)) by lia.
  exact Hlo.
Qed.

Lemma exponent_subnormal (x : R) :
  Rabs x < powerRZ 2 (-126) -> x <> 0 -> float32_exponent x = (-149)%Z.
Proof.
  intros Hx Hne.
  destruct (ilog2_spec (Rabs x) (Rabs_pos_lt x Hne)) as [Hlo Hhi].
  assert (H : (ilog2 (Rabs x) < -126)%Z) by (apply pow2_lt_inv; lra).
  unfold float32_exponent. lia.
Qed.

Lemma fround32_half_ulp (x : R) :
  Rabs (fround32 x - x) <= powerRZ 2 (float32_exponent x - 1).
Proof.
  unfold fround32. set (E := float32_exponent x).
  pose proof (pow2_pos E) as HE.
  pose proof (rne_error (x * powerRZ 2 (- E))) as Herr.
  replace (IZR (rne (x * powerRZ 2 (- E))) * powerRZ 2 E - x)
    with ((IZR (rne (x * powerRZ 2 (- E))) - x * powerRZ 2 (- E)) * powerRZ 2 E).
  2:{ rewrite Rmult_minus_distr_r, Rmult_assoc, pow2_neg. ring. }
  rewrite Rabs_mult, (Rabs_right (powerRZ 2 E)) by lra.
  replace (E - 1)%Z with (-1 + E)%Z by lia. rewrite pow2_add.
  replace (powerRZ 2 (-1)) with (1 / 2) by (simpl; lra).
  apply Rmult_le_compat_r; lra.
Qed.

(** The rounding error of a store: at most [2^-24] relative, or [2^-150]. *)
Lemma fround32_error (x : R) :
  Rabs (fround32 x - x) <= powerRZ 2 (-24) * Rabs x + powerRZ 2 (-150).
Proof.
  pose proof (fround32_half_ulp x) as Hulp.
  pose proof (pow2_pos (-24)) as H24. pose proof (pow2_pos (-150)) as H150.
  pose proof (Rabs_pos x) as Habs.
  destruct (Rle_lt_dec (powerRZ 2 (-126)) (Rabs x)) as [Hnormal|Hsub].
  - pose proof (exponent_normal x Hnormal) as He.
    replace (float32_exponent x - 1)%Z with (-24 + (float32_exponent x + 23))%Z in Hulp by lia.
    rewrite pow2_add in Hulp. nra.
  - destruct (Req_dec x 0) as [->|Hne].
    + unfold fround32. rewrite Rmult_0_l.
      replace 0 with (IZR 0) at 1 by reflexivity. rewrite rne_IZR.
      rewrite Rmult_0_l, Rminus_0_r, Rabs_R0. nra.
    + rewrite (exponent_subnormal x Hsub Hne) in Hulp.
      replace (-149 - 1)%Z with (-150)%Z in Hulp by lia. nra.
Qed.

Lemma fround32_0 : fround32 0 = 0.
Proof.
  unfold fround32. rewrite Rmult_0_l.
  replace 0 with (IZR 0) at 1 by reflexivity. rewrite rne_IZR. ring.
Qed.

Lemma fround32_unit_interval (x : R) : 0 <= x < 1 -> 0 <= fround32 x <= 1.
Proof.
  intros [H0 H1].
  destruct (Req_dec x 0) as [->|Hne]; [rewrite fround32_0; lra|].
  assert (Hpos : 0 < x) by lra.
  unfold fround32. set (E := float32_exponent x).
  pose proof (pow2_pos E) as HE. pose proof (pow2_pos (- E)) as HnE.
  assert (HE24 : (E <= -24)%Z).
  { unfold E, float32_exponent. rewrite (Rabs_right x) by lra.
    destruct (ilog2_spec x Hpos) as [Hlo _].
    assert (H : (ilog2 x < 0)%Z) by (apply pow2_lt_inv; simpl; lra).
    lia. }
  split.
  - apply Rmult_le_pos; [|lra].
    apply IZR_le. apply rne_ge. simpl. nra.
  - assert (Hle : (rne (x * powerRZ 2 (- E)) <= 2 ^ (- E))%Z).
    { apply rne_le. rewrite <- pow2_IZR by lia. nra. }
    apply IZR_le in Hle. rewrite <- pow2_IZR in Hle by lia.
    pose proof (pow2_neg E) as Hone. nra.
Qed.

(** A draw just below 1 is stored as 1. *)
Lemma fround32_rounds_up_to_1 : fround32 (1 - powerRZ 2 (-26)) = 1.
Proof.
  set (x := 1 - powerRZ 2 (-26)).
  assert (Hx : x = 1 - / 67108864) by (unfold x; simpl; lra).
  assert (HE : float32_exponent x = (-24)%Z).
  { unfold float32_exponent. rewrite (Rabs_right x) by lra.
    rewrite (ilog2_unique x (-1)); [reflexivity|]. simpl. lra. }
  unfold fround32. rewrite HE.
  assert (Hscaled : x * powerRZ 2 (- -24) = IZR 16777215 + 3 / 4)
    by (rewrite Hx; simpl; lra).
  rewrite Hscaled.
  assert (Hfloor : Int_part (IZR 16777215 + 3 / 4) = 16777215%Z)
    by (symmetry; apply Int_part_spec; lra).
  unfold rne. rewrite Hfloor.
  destruct (Rlt_dec (IZR 16777215 + 3 / 4 - IZR 16777215) (1 / 2)) as [H|H]; [lra|].
  destruct (Rlt_dec (1 / 2) (IZR 16777215 + 3 / 4 - IZR 16777215)) as [H'|H']; [|lra].
  replace (16777215 + 1)%Z with 16777216%Z by lia.
  simpl. lra.
Qed.

Lemma fround32_representable (x : R) : representable (fround32 x).
Proof.
  exists (rne (x * powerRZ 2 (- float32_exponent x))), (float32_exponent x).
  split; [apply exponent_ge|]. split; [|reflexivity].
  set (E := float32_exponent x).
  pose proof (exponent_lt x) as Hlt. fold E in Hlt.
  pose proof (pow2_pos (- E)) as HnE.
  assert (Hscaled : Rabs (x * powerRZ 2 (- E)) < powerRZ 2 24).
  { rewrite Rabs_mult, (Rabs_right (powerRZ 2 (- E))) by lra.
    replace 24%Z with ((E + 24) + - E)%Z by lia. rewrite pow2_add.
    apply Rmult_lt_compat_r; assumption. }
  rewrite (pow2_IZR 24) in Hscaled by lia.
  apply Rabs_def2 in Hscaled. destruct Hscaled as [Hhi Hlo].
  apply Z.abs_le. split.
  - apply rne_ge. rewrite opp_IZR. lra.
  - apply rne_le. lra.
Qed.

Lemma fround32_fixed (y : R) : representable y -> fround32 y = y.
Proof.
  intros (n & e & He & Hn & ->).
  set (y := IZR n * powerRZ 2 e).
  destruct (Z.eq_dec n 0%Z) as [->|Hn0].
  { unfold y. rewrite Rmult_0_l. apply fround32_0. }
  assert (Hy0 : y <> 0).
  { unfold y. apply Rmult_integral_contrapositive_currified.
    - apply not_0_IZR. exact Hn0.
    - pose proof (pow2_pos e). lra. }
  assert (Habs : Rabs y = IZR (Z.abs n) * powerRZ 2 e).
  { unfold y. rewrite Rabs_mult, <- abs_IZR, (Rabs_right (powerRZ 2 e)).
    - reflexivity.
    - pose proof (pow2_pos e). lra. }
  set (E := float32_exponent y).
  assert (Hint : exists m : Z, y * powerRZ 2 (- E) = IZR m).
  { destruct (Z_le_gt_dec E e) as [HEe|HEe].
    - exists (n * 2 ^ (e - E))%Z.
      rewrite mult_IZR, <- pow2_IZR by lia. unfold y.
      rewrite Rmult_assoc, <- pow2_add. reflexivity.
    - (* the exponent grew: |n| = 2^24 *)
      destruct (ilog2_spec (Rabs y) (Rabs_pos_lt y Hy0)) as [Hlo Hhi].
      assert (Hlog : ilog2 (Rabs y) = (E + 23)%Z)
        by (unfold E, float32_exponent in *; lia).
      rewrite Hlog, Habs in Hlo.
      assert (Hbig : powerRZ 2 24 <= IZR (Z.abs n)).
      { pose proof (pow2_pos e) as Hpe.
        assert (Hle : powerRZ 2 (e + 24) <= IZR (Z.abs n) * powerRZ 2 e).
        { apply Rle_trans with (2 := Hlo). apply pow2_le. lia. }
        rewrite pow2_add in Hle. nra. }
      rewrite pow2_IZR in Hbig by lia. apply le_IZR in Hbig.
      assert (Hn24 : Z.abs n = (2 ^ 24)%Z) by lia.
      assert (HE1 : E = (e + 1)%Z).
      { assert (Hlt : powerRZ 2 (E + 23) < powerRZ 2 (e + 25)).
        { apply Rle_lt_trans with (1 := Hlo). rewrite Hn24, <- pow2_IZR by lia.
          rewrite <- pow2_add. apply pow2_lt. lia. }
        apply pow2_lt_inv in Hlt. lia. }
      exists (n / 2)%Z.
      assert (Heven : n = (2 * (n / 2))%Z).
      { assert (Hcases : n = (2 ^ 24)%Z \/ n = (- 2 ^ 24)%Z) by lia.
        destruct Hcases as [Hs|Hs]; rewrite Hs; reflexivity. }
      unfold y. rewrite Heven at 1. rewrite mult_IZR, HE1.
      replace (- (e + 1))%Z with (- e + -1)%Z by lia.
      rewrite pow2_add, Rmult_assoc, <- (Rmult_assoc (powerRZ 2 e)).
      rewrite (Rmult_comm (powerRZ 2 e)), pow2_neg. simpl. field. }
  destruct Hint as [m Hm].
  unfold fround32. fold E. rewrite Hm, rne_IZR, <- Hm.
  rewrite Rmult_assoc, pow2_neg. ring.
Qed.

Lemma fround32_idempotent (x : R) : fround32 (fround32 x) = fround32 x.
Proof. apply fround32_fixed. apply fround32_representable. Qed.

(** Two nonzero integers whose squares add up to a power of 4 do not exist. *)
Lemma squares_not_power_of_4 (k : nat) (m n : Z) :
  m <> 0%Z -> n <> 0%Z -> (m * m + n * n <> 4 ^ Z.of_nat k)%Z.
Proof.
  revert m n. induction k as [|k IH]; intros m n Hm Hn Heq.
  - change (4 ^ Z.of_nat 0)%Z with 1%Z in Heq. nia.
  - rewrite Nat2Z.inj_succ, Z.pow_succ_r in Heq by lia.
    destruct (Z.Even_or_Odd m) as [[m' ->]|[m' ->]];
      destruct (Z.Even_or_Odd n) as [[n' ->]|[n' ->]]; try lia.
    apply (IH m' n'); lia.
Qed.

Lemma representable_squares (a b : R) :
  representable a -> representable b -> a <> 0 -> b <> 0 -> a * a + b * b <> 1.
Proof.
  intros (na & ea & _ & _ & ->) (nb & eb & _ & _ & ->) Ha Hb Hsum.
  assert (Hna : na <> 0%Z) by (intros ->; apply Ha; ring).
  assert (Hnb : nb <> 0%Z) by (intros ->; apply Hb; ring).
  set (k := Z.to_nat (Z.max 0 (Z.max (- ea) (- eb)))).
  assert (Hk : (0 <= Z.of_nat k /\ 0 <= ea + Z.of_nat k /\ 0 <= eb + Z.of_nat k)%Z)
    by (unfold k; lia).
  destruct Hk as (Hk0 & Hka & Hkb).
  apply (squares_not_power_of_4 k (na * 2 ^ (ea + Z.of_nat k)) (nb * 2 ^ (eb + Z.of_nat k))).
  - apply Z.neq_mul_0. split; [exact Hna|]. apply Z.pow_nonzero; lia.
  - apply Z.neq_mul_0. split; [exact Hnb|]. apply Z.pow_nonzero; lia.
  - apply eq_IZR.
    rewrite plus_IZR, !mult_IZR, <- !pow2_IZR by lia.
    replace 4%Z with (2 ^ 2)%Z by reflexivity.
    rewrite <- Z.pow_mul_r, <- pow2_IZR by lia.
    replace (2 * Z.of_nat k)%Z with (Z.of_nat k + Z.of_nat k)%Z by lia.
    rewrite !pow2_add.
    set (pa := powerRZ 2 ea) in *. set (pb := powerRZ 2 eb) in *.
    set (pk := powerRZ 2 (Z.of_nat k)).
    replace (IZR na * (pa * pk) * (IZR na * (pa * pk)) + IZR nb * (pb * pk) * (IZR nb * (pb * pk)))
      with ((IZR na * pa * (IZR na * pa) + IZR nb * pb * (IZR nb * pb)) * (pk * pk)) by ring.
    rewrite Hsum. ring.
Qed.

End Binary32.

(* ===================================================================== *)
(** * Rounding stores: the layout                                         *)
(* ===================================================================== *)

(** Rewrites the operations of [Float32Number] into those of [R]. *)
Ltac floats :=
  cbn [lit of_nat add sub mul div Math_sin Math_cos Math_acos Math_sqrt Math_PI
       NaN fround Float32Number] in *;
  unfold Q2R in *; cbn [Qnum Qden] in *.

Section Float32Layout.

Local Open Scope R_scope.
Local Existing Instance Float32Number.

(** Reading an array does not depend on how stores round. *)
Lemma get_float32 (a : Float32Array R) (i : nat) :
  get (H := Float32Number) a i = get (H := RealNumber) a i.
Proof. reflexivity. Qed.

(** The expressions of the layout are those of exact arithmetic. *)
Lemma x_of_float32 (p : Props R) (i : nat) :
  x_of (H := Float32Number) p i = x_of (H := RealNumber) p i.
Proof. reflexivity. Qed.

Lemma y_of_float32 (p : Props R) (i : nat) :
  y_of (H := Float32Number) p i = y_of (H := RealNumber) p i.
Proof. reflexivity. Qed.

Lemma z_of_float32 (p : Props R) (i : nat) :
  z_of (H := Float32Number) p i = z_of (H := RealNumber) p i.
Proof. reflexivity. Qed.

Lemma layout_formulas (p : Props R) (i : nat) :
  let phi := acos (1 - 2 * (INR i + 0.5) / INR (particleCount p)) in
  let theta := PI * (1 + sqrt 5) * (INR i + 0.5) in
  x_of (H := RealNumber) p i = sin phi * cos theta /\
  y_of (H := RealNumber) p i = sin phi * sin theta /\
  z_of (H := RealNumber) p i = cos phi.
Proof.
  intros phi theta.
  assert (Hphi : phi_of (H := RealNumber) p i = phi).
  { unfold phi_of, phi. reals. f_equal. lra. }
  assert (Htheta : theta_of (H := RealNumber) i = theta).
  { unfold theta_of, theta. reals.
    replace (1 * / 1) with 1 by lra. replace (5 * / 1) with 5 by lra.
    replace (5 * / 10) with 0.5 by lra. reflexivity. }
  unfold x_of, y_of, z_of. rewrite Hphi, Htheta. reals. repeat split.
Qed.

(** Entry [i] of the buffers, as stored. *)
Lemma layout_entries_float32 (p : Props R) (random : nat -> R) (i : nat) :
  (i < particleCount p)%nat ->
  let b := layout (H := Float32Number) p random in
  let x := x_of (H := RealNumber) p i in
  let y := y_of (H := RealNumber) p i in
  let z := z_of (H := RealNumber) p i in
  let jitter := jitter_of (H := RealNumber) (random (2 * i)%nat) in
  vec3 (normals b) i = (fround32 x, fround32 y, fround32 z) /\
  vec3 (positions b) i =
    (fround32 (x * (baseRadius p + jitter)), fround32 (y * (baseRadius p + jitter)),
     fround32 (z * (baseRadius p + jitter))) /\
  get (randoms b) i = fround32 (random (2 * i + 1)%nat).
Proof.
  intros Hi b x y z jitter.
  destruct (layout_spec (H := Float32Number) p random) as (_ & _ & _ & _ & Hentries).
  destruct (Hentries i Hi) as (Hx & Hy & Hz & Hpx & Hpy & Hpz & Hr).
  fold b in Hx, Hy, Hz, Hpx, Hpy, Hpz, Hr.
  unfold vec3. rewrite <- !get_float32.
  rewrite Hx, Hy, Hz, Hpx, Hpy, Hpz, Hr. repeat split.
Qed.

(** C4, as amended.  Entry [i] of the layout, for [i < N], when
    [Math.random] returns values in [0, 1) and the three buffers are
    [Float32Array]s.  The normal assigned is
    [(sin phi cos theta, sin phi sin theta, cos phi)] with
    [phi = acos (1 - 2 (i + 0.5) / N)] and
    [theta = pi (1 + sqrt 5) (i + 0.5)], and each component is stored
    rounded to binary32.  The position assigned is that (unrounded) normal
    times [baseRadius + jitter], stored rounded, where
    [jitter = (u - 0.5) * 0.02] lies in [-0.01, 0.01) and [u] is the value
    of call [2 i] of [Math.random].  The random scalar is the value of call
    [2 i + 1], stored rounded: it lies in [0, 1], the end 1 included. *)
Theorem layout_entries_as_stored (p : Props R) (random : nat -> R) (i : nat) :
  (forall k, 0 <= random k < 1) ->
  (i < particleCount p)%nat ->
  let b := layout (H := Float32Number) p random in
  let phi := acos (1 - 2 * (INR i + 0.5) / INR (particleCount p)) in
  let theta := PI * (1 + sqrt 5) * (INR i + 0.5) in
  let x := sin phi * cos theta in
  let y := sin phi * sin theta in
  let z := cos phi in
  let jitter := (random (2 * i)%nat - 0.5) * 0.02 in
  let radius := baseRadius p + jitter in
  vec3 (normals b) i = (fround32 x, fround32 y, fround32 z) /\
  vec3 (positions b) i =
    (fround32 (x * radius), fround32 (y * radius), fround32 (z * radius)) /\
  -0.01 <= jitter < 0.01 /\
  get (randoms b) i = fround32 (random (2 * i + 1)%nat) /\
  0 <= get (randoms b) i <= 1.
Proof.
  intros Hrandom Hi b phi theta x y z jitter radius.
  destruct (layout_entries_float32 p random i Hi) as (Hn & Hp & Hr).
  fold b in Hn, Hp, Hr.
  destruct (layout_formulas p i) as (Hx & Hy & Hz).
  fold phi theta in Hx, Hy, Hz. fold x in Hx. fold y in Hy. fold z in Hz.
  assert (Hjitter : jitter_of (H := RealNumber) (random (2 * i)%nat) = jitter).
  { unfold jitter_of, jitter. reals. lra. }
  rewrite Hx, Hy, Hz in Hn. rewrite Hx, Hy, Hz, Hjitter in Hp.
  pose proof (Hrandom (2 * i)%nat) as Hu.
  split; [exact Hn|]. split; [exact Hp|].
  split; [unfold jitter; lra|].
  split; [exact Hr|]. rewrite Hr. apply fround32_unit_interval. apply Hrandom.
Qed.

Lemma quarter_draws_in_range (k : nat) : 0 <= quarter_draws k < 1.
Proof. unfold quarter_draws. destruct (Nat.even k); lra. Qed.

Lemma layout_entries_as_stored_witness :
  (forall k, 0 <= quarter_draws k < 1) /\
  (7 < particleCount default_props)%nat /\
  let b := layout (H := Float32Number) default_props quarter_draws in
  let phi := acos (1 - 2 * (INR 7 + 0.5) / INR (particleCount default_props)) in
  let theta := PI * (1 + sqrt 5) * (INR 7 + 0.5) in
  let x := sin phi * cos theta in
  let y := sin phi * sin theta in
  let z := cos phi in
  let jitter := (quarter_draws (2 * 7)%nat - 0.5) * 0.02 in
  let radius := baseRadius default_props + jitter in
  vec3 (normals b) 7 = (fround32 x, fround32 y, fround32 z) /\
  vec3 (positions b) 7 =
    (fround32 (x * radius), fround32 (y * radius), fround32 (z * radius)) /\
  -0.01 <= jitter < 0.01 /\
  get (randoms b) 7 = fround32 (quarter_draws (2 * 7 + 1)%nat) /\
  0 <= get (randoms b) 7 <= 1.
Proof.
  assert (Hindex : (7 < particleCount default_props)%nat) by (cbn; lia).
  split; [exact quarter_draws_in_range|]. split; [exact Hindex|].
  exact (layout_entries_as_stored default_props quarter_draws 7
           quarter_draws_in_range Hindex).
Defined.

(** The jitter of that witness is not zero. *)
Example quarter_draws_jitter :
  (quarter_draws (2 * 7)%nat - 0.5) * 0.02 = -0.005.
Proof. unfold quarter_draws. cbn. lra. Qed.

(** C4, as stated, fails: the stored random scalar need not be below 1.
    When [Math.random] returns [1 - 2^-26], a value in [0, 1), the
    [Float32Array] holds exactly 1 for particle 0. *)
Lemma stored_random_scalar_reaches_1 :
  let b := layout (H := Float32Number) default_props edge_draws in
  (forall k, 0 <= edge_draws k < 1) /\
  (0 < particleCount default_props)%nat /\
  get (randoms b) 0 = 1 /\
  ~ (0 <= get (randoms b) 0 < 1).
Proof.
  intros b.
  assert (Hindex : (0 < particleCount default_props)%nat) by (cbn; lia).
  assert (Hdraws : forall k, 0 <= edge_draws k < 1).
  { intros k. unfold edge_draws.
    assert (H : powerRZ 2 (-26) = / 67108864) by (simpl; lra).
    rewrite H. lra. }
  destruct (layout_entries_float32 default_props edge_draws 0 Hindex) as (_ & _ & Hr).
  fold b in Hr.
  assert (Hone : get (randoms b) 0 = 1).
  { rewrite Hr. unfold edge_draws. apply fround32_rounds_up_to_1. }
  split; [exact Hdraws|]. split; [exact Hindex|]. split; [exact Hone|].
  rewrite Hone. lra.
Qed.

End Float32Layout.

(* ===================================================================== *)
(** * Rounding stores: lengths of stored vectors                          *)
(* ===================================================================== *)

Section StoredVectors.

Local Open Scope R_scope.

Lemma norm3_sqr (x y z : R) :
  norm3 (x, y, z) * norm3 (x, y, z) = x * x + y * y + z * z.
Proof. unfold norm3. apply sqrt_sqrt. nra. Qed.

Lemma norm3_nonneg (v : R * R * R) : 0 <= norm3 v.
Proof. destruct v as [[x y] z]. unfold norm3. apply sqrt_pos. Qed.

(** The triangle inequality. *)
Lemma norm3_triangle (a1 a2 a3 b1 b2 b3 : R) :
  norm3 (a1 + b1, a2 + b2, a3 + b3) <= norm3 (a1, a2, a3) + norm3 (b1, b2, b3).
Proof.
  pose proof (norm3_sqr a1 a2 a3) as Ha. pose proof (norm3_sqr b1 b2 b3) as Hb.
  pose proof (norm3_sqr (a1 + b1) (a2 + b2) (a3 + b3)) as Hc.
  pose proof (norm3_nonneg (a1, a2, a3)) as Ha0.
  pose proof (norm3_nonneg (b1, b2, b3)) as Hb0.
  pose proof (norm3_nonneg (a1 + b1, a2 + b2, a3 + b3)) as Hc0.
  set (A := norm3 (a1, a2, a3)) in *. set (B := norm3 (b1, b2, b3)) in *.
  set (C := norm3 (a1 + b1, a2 + b2, a3 + b3)) in *.
  assert (Hdot : a1 * b1 + a2 * b2 + a3 * b3 <= A * B).
  { assert (Hcs : (a1 * b1 + a2 * b2 + a3 * b3) * (a1 * b1 + a2 * b2 + a3 * b3)
                  <= (A * B) * (A * B)).
    { replace (A * B * (A * B)) with ((A * A) * (B * B)) by ring.
      rewrite Ha, Hb.
      pose proof (Rle_0_sqr (a1 * b2 - a2 * b1)) as H12.
      pose proof (Rle_0_sqr (a1 * b3 - a3 * b1)) as H13.
      pose proof (Rle_0_sqr (a2 * b3 - a3 * b2)) as H23.
      unfold Rsqr in *. nra. }
    assert (HAB : 0 <= A * B) by nra.
    destruct (Rle_lt_dec (a1 * b1 + a2 * b2 + a3 * b3) (A * B)) as [H|H]; [exact H|].
    nra. }
  assert (Hsq : C * C <= (A + B) * (A + B)) by nra.
  destruct (Rle_lt_dec C (A + B)) as [H|H]; [exact H|]. nra.
Qed.

Lemma abs_le_inv (d D : R) : Rabs d <= D -> - D <= d <= D.
Proof.
  intros Hd. pose proof (Rle_abs d) as H1. pose proof (Rle_abs (- d)) as H2.
  rewrite Rabs_Ropp in H2. lra.
Qed.

Lemma norm3_small (d1 d2 d3 D : R) :
  Rabs d1 <= D -> Rabs d2 <= D -> Rabs d3 <= D -> norm3 (d1, d2, d3) <= 2 * D.
Proof.
  intros H1 H2 H3.
  pose proof (Rabs_pos d1) as Hp.
  apply abs_le_inv in H1. apply abs_le_inv in H2. apply abs_le_inv in H3.
  pose proof (norm3_sqr d1 d2 d3) as Hsq.
  pose proof (norm3_nonneg (d1, d2, d3)) as Hn.
  set (n := norm3 (d1, d2, d3)) in *.
  assert (Hle : n * n <= (2 * D) * (2 * D)) by nra.
  destruct (Rle_lt_dec n (2 * D)) as [H|H]; [exact H|]. nra.
Qed.

Lemma component_le_norm (x1 x2 x3 : R) :
  norm3 (x1, x2, x3) = 1 -> Rabs x1 <= 1 /\ Rabs x2 <= 1 /\ Rabs x3 <= 1.
Proof.
  intros Hunit. pose proof (norm3_sqr x1 x2 x3) as Hsq. rewrite Hunit in Hsq.
  repeat split; apply Rabs_le; nra.
Qed.

(** One stored component: the unit-vector component [x] is stored rounded,
    read back, multiplied by [k] and stored rounded again. *)
Lemma stored_component_error (x k U : R) :
  Rabs x <= 1 -> Rabs k <= U ->
  Rabs (fround32 (fround32 x * k) - x * k)
  <= U * (powerRZ 2 (-23) + powerRZ 2 (-24)) + powerRZ 2 (-150).
Proof.
  intros Hx Hk.
  pose proof (fround32_error x) as He.
  pose proof (fround32_error (fround32 x * k)) as Hf.
  pose proof (pow2_pos (-24)) as H24. pose proof (pow2_pos (-150)) as H150.
  assert (H23 : powerRZ 2 (-23) = 2 * powerRZ 2 (-24)).
  { replace (-23)%Z with (1 + -24)%Z by lia. rewrite pow2_add. simpl. lra. }
  assert (Hsmall : powerRZ 2 (-24) <= / 4).
  { replace (/ 4) with (powerRZ 2 (-2)) by (simpl; lra). apply pow2_le. lia. }
  assert (Htiny : powerRZ 2 (-150) <= powerRZ 2 (-24) * / 4).
  { replace (/ 4) with (powerRZ 2 (-2)) by (simpl; lra).
    rewrite <- pow2_add. apply pow2_le. lia. }
  set (eps := powerRZ 2 (-24)) in *. set (eta := powerRZ 2 (-150)) in *.
  set (n := fround32 x) in *. set (q := fround32 (n * k)) in *.
  pose proof (Rabs_pos x) as Hx0. pose proof (Rabs_pos k) as Hk0.
  assert (Hn : Rabs n <= 1 + eps + eta).
  { replace n with ((n - x) + x) by ring.
    apply Rle_trans with (1 := Rabs_triang _ _). nra. }
  rewrite Rabs_mult in Hf.
  pose proof (Rabs_pos n) as Hn0.
  assert (Hnk : Rabs n * Rabs k <= (1 + eps + eta) * Rabs k) by nra.
  replace (q - x * k) with ((q - n * k) + (n - x) * k) by ring.
  apply Rle_trans with (1 := Rabs_triang _ _).
  rewrite Rabs_mult.
  assert (He' : Rabs (n - x) <= eps + eta) by nra.
  assert (Hex : Rabs (n - x) * Rabs k <= (eps + eta) * Rabs k)
    by (apply Rmult_le_compat_r; assumption).
  assert (HkU : (eps + eta) * Rabs k <= (eps + eta) * U)
    by (apply Rmult_le_compat_l; lra).
  assert (HnkU : (1 + eps + eta) * Rabs k <= (1 + eps + eta) * U)
    by (apply Rmult_le_compat_l; lra).
  assert (HU : 0 <= U) by lra.
  assert (Hf' : Rabs (q - n * k) <= eps * ((1 + eps + eta) * U) + eta) by nra.
  assert (Hc : eps * eps + eps * eta + eta <= eps) by nra.
  assert (HcU : (eps * eps + eps * eta + eta) * U <= eps * U)
    by (apply Rmult_le_compat_r; lra).
  rewrite H23. lra.
Qed.

(** The length of a stored vector: within [store_tolerance U] of [|k|]. *)
Lemma stored_vector_length (x1 x2 x3 k U : R) :
  norm3 (x1, x2, x3) = 1 ->
  Rabs k <= U ->
  Rabs (norm3 (fround32 (fround32 x1 * k), fround32 (fround32 x2 * k),
               fround32 (fround32 x3 * k)) - Rabs k)
  <= store_tolerance U.
Proof.
  intros Hunit Hk.
  destruct (component_le_norm x1 x2 x3 Hunit) as (H1 & H2 & H3).
  pose proof (stored_component_error x1 k U H1 Hk) as E1.
  pose proof (stored_component_error x2 k U H2 Hk) as E2.
  pose proof (stored_component_error x3 k U H3 Hk) as E3.
  set (p1 := fround32 (fround32 x1 * k)) in *.
  set (p2 := fround32 (fround32 x2 * k)) in *.
  set (p3 := fround32 (fround32 x3 * k)) in *.
  set (D := U * (powerRZ 2 (-23) + powerRZ 2 (-24)) + powerRZ 2 (-150)) in *.
  assert (Hq : norm3 (x1 * k, x2 * k, x3 * k) = Rabs k).
  { change (x1 * k, x2 * k, x3 * k) with (scale3 k (x1, x2, x3)).
    rewrite norm3_scale3, Hunit. ring. }
  assert (Hup : norm3 (p1, p2, p3) <= Rabs k + 2 * D).
  { rewrite <- Hq.
    replace p1 with (x1 * k + (p1 - x1 * k)) at 1 by ring.
    replace p2 with (x2 * k + (p2 - x2 * k)) at 1 by ring.
    replace p3 with (x3 * k + (p3 - x3 * k)) at 1 by ring.
    apply Rle_trans with (1 := norm3_triangle _ _ _ _ _ _).
    apply Rplus_le_compat_l. apply norm3_small; assumption. }
  assert (Hdown : Rabs k <= norm3 (p1, p2, p3) + 2 * D).
  { rewrite <- Hq.
    replace (x1 * k) with (p1 + (x1 * k - p1)) at 1 by ring.
    replace (x2 * k) with (p2 + (x2 * k - p2)) at 1 by ring.
    replace (x3 * k) with (p3 + (x3 * k - p3)) at 1 by ring.
    apply Rle_trans with (1 := norm3_triangle _ _ _ _ _ _).
    apply Rplus_le_compat_l.
    apply norm3_small; rewrite Rabs_minus_sym; assumption. }
  assert (Htol : 2 * D <= store_tolerance U).
  { unfold D, store_tolerance.
    pose proof (Rabs_pos k) as Hk0.
    assert (H21 : powerRZ 2 (-21) = 8 * powerRZ 2 (-24)).
    { replace (-21)%Z with (3 + -24)%Z by lia. rewrite pow2_add. simpl. lra. }
    assert (H23 : powerRZ 2 (-23) = 2 * powerRZ 2 (-24)).
    { replace (-23)%Z with (1 + -24)%Z by lia. rewrite pow2_add. simpl. lra. }
    assert (H149 : powerRZ 2 (-149) = 2 * powerRZ 2 (-150)).
    { replace (-149)%Z with (1 + -150)%Z by lia. rewrite pow2_add. simpl. lra. }
    pose proof (pow2_pos (-24)). pose proof (pow2_pos (-150)).
    rewrite H21, H23, H149. nra. }
  apply Rabs_le. lra.
Qed.

End StoredVectors.

(* ===================================================================== *)
(** * Rounding stores: frames                                             *)
(* ===================================================================== *)

Section Float32Frames.

Local Open Scope R_scope.
Local Existing Instance Float32Number.

(** Entry [i] of the position buffer after a running frame, as stored. *)
Lemma running_frame_entry_float32 (p : Props R) (random : nat -> R) (now0 : R)
    (s : Session R) (now : R) (i : nat) :
  session_inv (H := Float32Number) p random now0 s ->
  runningRef s = true ->
  (i < particleCount p)%nat ->
  let rnd := array (aRandom (geometry (points s))) in
  let t := elapsed_of (H := RealNumber) s now in
  let k := radius_of (H := RealNumber) p t rnd i + noise_of (H := RealNumber) t rnd i in
  vec3 (array (position (geometry (points (animate (H := Float32Number) s now))))) i =
  (fround32 (fround32 (x_of (H := RealNumber) p i) * k),
   fround32 (fround32 (y_of (H := RealNumber) p i) * k),
   fround32 (fround32 (z_of (H := RealNumber) p i) * k)) /\
  get (H := RealNumber) rnd i = fround32 (random (2 * i + 1)%nat).
Proof.
  intros (Hp & _ & Hn & Hr & Hlen & _) Hrunning Hi rnd t k.
  destruct (layout_entries_float32 p random i Hi) as (Hnormal & _ & Hrandom).
  assert (Hrnd : get (H := RealNumber) rnd i = fround32 (random (2 * i + 1)%nat)).
  { unfold rnd. rewrite Hr. exact Hrandom. }
  split; [|exact Hrnd].
  rewrite animate_position, Hrunning, Hp.
  rewrite update_positions_array by exact Hlen.
  unfold vec3 in *. rewrite <- !get_float32 in *. unfold frame_positions.
  rewrite <- (Nat.add_0_r (i * 3)) at 1.
  rewrite !(flat3_get (stored p (elapsed_of s now) _ _)) by lia.
  unfold stored. rewrite Nat.add_0_r, Hn.
  cbn [build_geometry normalVec new_BufferAttribute array].
  injection Hnormal as Hx Hy Hz. rewrite Hx, Hy, Hz.
  reflexivity.
Qed.

(** The factor applied to the normal lies in the band. *)
Lemma factor_in_band (p : Props R) (t : R) (rnd : Float32Array R) (i : nat) :
  0 <= pulseAmplitude p ->
  0 <= get (H := RealNumber) rnd i <= 1 ->
  let k := radius_of (H := RealNumber) p t rnd i + noise_of (H := RealNumber) t rnd i in
  baseRadius p - pulseAmplitude p - 0.005 <= k <= baseRadius p + pulseAmplitude p + 0.005.
Proof.
  intros Hamp Hu k.
  assert (Hr : 0.2 <= r_of (H := RealNumber) rnd i <= 1.0)
    by (rewrite r_of_real; lra).
  pose proof (local_pulse_bound p t (r_of (H := RealNumber) rnd i) Hamp Hr) as Hpulse.
  pose proof (noise_bound t rnd i) as Hnoise.
  unfold k. rewrite radius_of_real. lra.
Qed.

(** C10, as amended.  With [pulseAmplitude >= 0] and [baseRadius > 0],
    and [Math.random] returning values in [0, 1), after a frame that runs
    while [running] is true, at any clock reading, the distance from the
    origin of every particle as stored in the [Float32Array] lies within
    [baseRadius - pulseAmplitude - 0.005 - tol,
     baseRadius + pulseAmplitude + 0.005 + tol], where
    [tol = (baseRadius + pulseAmplitude + 0.005) * 2^-21 + 2^-149] covers
    the rounding of the stores. *)
Theorem stored_distance_in_band (p : Props R) (random : nat -> R) (now0 : R)
    (events : list (Event R)) (now : R) (i : nat) :
  (forall k, 0 <= random k < 1) ->
  0 <= pulseAmplitude p ->
  0 < baseRadius p ->
  let s := run (H := Float32Number) (effect (H := Float32Number) p random now0) events in
  running s = true ->
  (i < particleCount p)%nat ->
  let distance :=
    norm3 (vec3 (array (position (geometry (points (animate (H := Float32Number) s now))))) i) in
  let tol := store_tolerance (baseRadius p + pulseAmplitude p + 0.005) in
  baseRadius p - pulseAmplitude p - 0.005 - tol <= distance
  <= baseRadius p + pulseAmplitude p + 0.005 + tol.
Proof.
  intros Hrandom Hamp Hbase s Hrunning Hi distance tol.
  pose proof (session_inv_run (H := Float32Number) p random now0 events) as Hs.
  fold s in Hs.
  assert (Hmirror : runningRef s = true).
  { destruct Hs as (_ & _ & _ & _ & _ & _ & _ & Hm & _). congruence. }
  destruct (running_frame_entry_float32 p random now0 s now i Hs Hmirror Hi)
    as (Hentry & Hrnd).
  set (rnd := array (aRandom (geometry (points s)))) in *.
  set (t := elapsed_of (H := RealNumber) s now) in *.
  set (k := radius_of (H := RealNumber) p t rnd i + noise_of (H := RealNumber) t rnd i) in *.
  assert (Hu : 0 <= get (H := RealNumber) rnd i <= 1).
  { rewrite Hrnd. apply fround32_unit_interval. apply Hrandom. }
  pose proof (factor_in_band p t rnd i Hamp Hu) as Hk. fold k in Hk.
  assert (Habs : Rabs k <= baseRadius p + pulseAmplitude p + 0.005)
    by (apply Rabs_le; lra).
  pose proof (stored_vector_length _ _ _ k _ (unit_vector p i) Habs) as Hlen.
  unfold distance. rewrite Hentry.
  apply abs_le_inv in Hlen. fold tol in Hlen.
  pose proof (Rle_abs k) as Hle. lra.
Qed.

Lemma stored_distance_in_band_witness :
  (forall k, 0 <= quarter_draws k < 1) /\
  0 <= pulseAmplitude default_props /\
  0 < baseRadius default_props /\
  let s := run (H := Float32Number)
             (effect (H := Float32Number) default_props quarter_draws 0)
             [Frame 16; ToggleRunning; Frame 33; ToggleRunning] in
  running s = true /\
  (7 < particleCount default_props)%nat /\
  let distance :=
    norm3 (vec3 (array (position (geometry (points (animate (H := Float32Number) s 50))))) 7) in
  let tol := store_tolerance
               (baseRadius default_props + pulseAmplitude default_props + 0.005) in
  baseRadius default_props - pulseAmplitude default_props - 0.005 - tol <= distance
  <= baseRadius default_props + pulseAmplitude default_props + 0.005 + tol.
Proof.
  assert (Hamp : 0 <= pulseAmplitude default_props) by (cbn; lra).
  assert (Hbase : 0 < baseRadius default_props) by (cbn; lra).
  assert (Hindex : (7 < particleCount default_props)%nat) by (cbn; lia).
  split; [exact quarter_draws_in_range|]. split; [exact Hamp|]. split; [exact Hbase|].
  split; [reflexivity|]. split; [exact Hindex|].
  exact (stored_distance_in_band default_props quarter_draws 0
           [Frame 16; ToggleRunning; Frame 33; ToggleRunning] 50 7
           quarter_draws_in_range Hamp Hbase eq_refl Hindex).
Defined.

End Float32Frames.

(* ===================================================================== *)
(** * Rounding stores: the exact band fails                               *)
(* ===================================================================== *)

Section Float32Edge.

Local Open Scope R_scope.
Local Existing Instance Float32Number.

Lemma fround32_nonzero (x : R) : / 4 <= Rabs x -> fround32 x <> 0.
Proof.
  intros Hx Hzero.
  pose proof (fround32_error x) as Herr.
  rewrite Hzero, Rminus_0_l, Rabs_Ropp in Herr.
  assert (H24 : powerRZ 2 (-24) <= / 4).
  { replace (/ 4) with (powerRZ 2 (-2)) by (simpl; lra). apply pow2_le. lia. }
  assert (H150 : powerRZ 2 (-150) <= / 16).
  { replace (/ 16) with (powerRZ 2 (-4)) by (simpl; lra). apply pow2_le. lia. }
  pose proof (pow2_pos (-24)). nra.
Qed.

(** The azimuth of the only particle of a one-particle layout. *)
Lemma single_azimuth :
  let theta := PI * (1 + sqrt 5) * 0.5 in
  / 4 <= Rabs (cos theta) /\ / 4 <= Rabs (sin theta).
Proof.
  intros theta.
  pose proof PI_RGT_0 as Hpi.
  assert (Hq : 2.2 <= sqrt 5 <= 2.5).
  { pose proof (sqrt_pos 5) as H0.
    pose proof (sqrt_sqrt 5 ltac:(lra)) as Hsq. split; nra. }
  set (delta := PI * (sqrt 5 - 2) / 2).
  assert (Hdelta : 0.1 * PI <= delta <= 0.25 * PI) by (unfold delta; nra).
  assert (Htheta : theta = 3 * (PI / 2) + delta) by (unfold theta, delta; lra).
  assert (Hcos : cos theta = sin delta).
  { rewrite Htheta, cos_plus, sin_3PI2, cos_3PI2. ring. }
  assert (Hsin : sin theta = - cos delta).
  { rewrite Htheta, sin_plus, sin_3PI2, cos_3PI2. ring. }
  assert (Hs0 : 0 <= sin delta) by (apply sin_ge_0; lra).
  assert (Hc1 : cos delta <= 1) by apply COS_bound.
  assert (Hs2 : 1 / 2 <= sin (2 * delta)).
  { rewrite <- sin_PI6. apply sin_incr_1; lra. }
  rewrite sin_2a in Hs2.
  assert (Hc : 1 / 2 <= cos delta).
  { rewrite <- cos_PI3. apply cos_decr_1; lra. }
  rewrite Hcos, Hsin, Rabs_Ropp. split.
  - rewrite Rabs_right by lra. nra.
  - rewrite Rabs_right by lra. lra.
Qed.

(** The one-particle session at the clock reading at which the noise term
    is [sign * 0.005], for [sign] either 1 or -1 and [quarter] the matching
    multiple of a quarter turn: the particle is stored at its twice-rounded
    normal times [radius + sign * 0.005]. *)
Lemma single_particle_frame (radius quarter sign : R) :
  sin (quarter * (PI / 2)) = sign ->
  let p := single_particle radius in
  let s := run (H := Float32Number) (effect (H := Float32Number) p zero_draws 0) [] in
  let now := 1000 * (quarter * (PI / 2) / 1.1) in
  let theta := PI * (1 + sqrt 5) * 0.5 in
  let k := radius + sign * 0.005 in
  vec3 (array (position (geometry (points (animate (H := Float32Number) s now))))) 0 =
  (fround32 (fround32 (cos theta) * k), fround32 (fround32 (sin theta) * k),
   fround32 (fround32 0 * k)).
Proof.
  intros Hsign p s now theta k.
  assert (Hi : (0 < particleCount p)%nat) by (cbn; lia).
  assert (Hs : session_inv (H := Float32Number) p zero_draws 0 s)
    by apply session_inv_run.
  destruct (running_frame_entry_float32 p zero_draws 0 s now 0 Hs eq_refl Hi)
    as (Hentry & Hrnd).
  rewrite Hentry. clear Hentry.
  set (rnd := array (aRandom (geometry (points s)))) in *.
  unfold zero_draws in Hrnd. rewrite fround32_0 in Hrnd.
  assert (Hr : r_of (H := RealNumber) rnd 0 = 0.2) by (rewrite r_of_real, Hrnd; lra).
  assert (Ht : elapsed_of (H := RealNumber) s now = quarter * (PI / 2) / 1.1).
  { rewrite elapsed_of_real. unfold now. cbn [startTime s run effect foldl].
    set (X := quarter * (PI / 2) / 1.1). lra. }
  assert (Hk : radius_of (H := RealNumber) p (elapsed_of (H := RealNumber) s now) rnd 0
               + noise_of (H := RealNumber) (elapsed_of (H := RealNumber) s now) rnd 0 = k).
  { rewrite noise_of_real, radius_of_real, pulse_of_real, Hr, Ht.
    cbn [baseRadius pulseAmplitude pulseSpeed p single_particle INR].
    replace (quarter * (PI / 2) / 1.1 * (0.7 + 0.2 * 2.0) + 0)
      with (quarter * (PI / 2)) by (set (X := quarter * (PI / 2)); lra).
    rewrite Hsign. unfold k. ring. }
  rewrite Hk.
  destruct (layout_formulas p 0) as (Hx & Hy & Hz).
  cbn [particleCount p single_particle INR] in Hx, Hy, Hz.
  replace (1 - 2 * (0 + 0.5) / 1) with 0 in Hx, Hy, Hz by lra.
  rewrite acos_0 in Hx, Hy, Hz. rewrite sin_PI2 in Hx, Hy. rewrite cos_PI2 in Hz.
  replace (PI * (1 + sqrt 5) * (0 + 0.5)) with theta in Hx, Hy by (unfold theta; lra).
  rewrite Hx, Hy, Hz, !Rmult_1_l. reflexivity.
Qed.

(** C10, as stated, fails on the stores, even for positive [baseRadius].
    Take one particle, no pulse, every draw 0.  Its stored normal is
    [(a, b, 0)] with [a] and [b] nonzero binary32 numbers, so
    [a^2 + b^2] is not 1.  With [baseRadius = 1.005], at the clock reading
    where the noise is -0.005, the particle is stored at [(a, b, 0)] and the
    band starts at 1; with [baseRadius = 0.995], where the noise is 0.005,
    it is stored at [(a, b, 0)] again and the band ends at 1.  The claim
    would give [a^2 + b^2 >= 1] and [a^2 + b^2 <= 1]. *)
Lemma exact_band_fails_on_stores : ~ exact_band_on_stores.
Proof.
  intros Hclaim.
  set (theta := PI * (1 + sqrt 5) * 0.5).
  set (a := fround32 (cos theta)). set (b := fround32 (sin theta)).
  destruct single_azimuth as [Hcos Hsin]. fold theta in Hcos, Hsin.
  assert (Ha : a <> 0) by (apply fround32_nonzero; exact Hcos).
  assert (Hb : b <> 0) by (apply fround32_nonzero; exact Hsin).
  assert (Hdraws : forall k, 0 <= zero_draws k < 1)
    by (intros k; unfold zero_draws; lra).
  assert (Hstored : forall radius quarter sign,
    sin (quarter * (PI / 2)) = sign -> radius + sign * 0.005 = 1 ->
    norm3 (vec3 (array (position (geometry (points
      (animate (H := Float32Number)
         (run (H := Float32Number)
            (effect (H := Float32Number) (single_particle radius) zero_draws 0) [])
         (1000 * (quarter * (PI / 2) / 1.1))))))) 0)
    = norm3 (a, b, 0)).
  { intros radius quarter sign Hsign Hone.
    rewrite (single_particle_frame radius quarter sign Hsign).
    fold theta. rewrite Hone, !Rmult_1_r, !fround32_idempotent, fround32_0.
    reflexivity. }
  pose proof (norm3_sqr a b 0) as Hsq.
  pose proof (norm3_nonneg (a, b, 0)) as Hnonneg.
  (* the lower end *)
  pose proof (Hclaim (single_particle 1.005) zero_draws 0 [] (1000 * (3 * (PI / 2) / 1.1)) 0%nat
                Hdraws ltac:(cbn; lra) ltac:(cbn; lra) eq_refl ltac:(cbn; lia)) as Hlow.
  unfold in_band in Hlow.
  rewrite (Hstored 1.005 3 (-1) sin_3PI2 ltac:(lra)) in Hlow.
  cbn [baseRadius pulseAmplitude single_particle] in Hlow.
  (* the upper end *)
  pose proof (Hclaim (single_particle 0.995) zero_draws 0 [] (1000 * (1 * (PI / 2) / 1.1)) 0%nat
                Hdraws ltac:(cbn; lra) ltac:(cbn; lra) eq_refl ltac:(cbn; lia)) as Hhigh.
  unfold in_band in Hhigh.
  assert (Hsin1 : sin (1 * (PI / 2)) = 1) by (rewrite Rmult_1_l; apply sin_PI2).
  rewrite (Hstored 0.995 1 1 Hsin1 ltac:(lra)) in Hhigh.
  cbn [baseRadius pulseAmplitude single_particle] in Hhigh.
  assert (Hone : norm3 (a, b, 0) = 1) by lra.
  rewrite Hone in Hsq.
  apply (representable_squares a b); try assumption.
  - apply fround32_representable.
  - apply fround32_representable.
  - lra.
Qed.

End Float32Edge.

(* ===================================================================== *)
(** * Re-activation and the self-check, for every arithmetic              *)
(* ===================================================================== *)

Section LifecycleFacts.

Context {num : Type} `{JSNumber num}.

(** The first run of the effect is the session of the earlier sections. *)
Lemma mount_component_objects (p : Props num) (random : nat -> num) (now0 now1 : num) :
  objects (mount_component p random now0 now1) = [points (mount p random now0 now1)].
Proof. reflexivity. Qed.

Lemma mounted_count (p : Props num) (random : nat -> num) (now0 now1 : num) :
  count (position (geometry (points (mount p random now0 now1)))) = particleCount p.
Proof.
  destruct (session_inv_animate p random now0 _ now1 (session_inv_effect p random now0))
    as (_ & _ & _ & _ & Hlen & Hsize & _).
  unfold mount, count. rewrite Hlen, Hsize. apply Nat.div_mul. lia.
Qed.

(** The report about an object of [count] particles that is still in the
    heap. *)
Lemma component_report (c : Component num) (info : Published) (k : nat) (pts : Points num) :
  component_readyInfo c = Some info ->
  published_geometry info = Some k ->
  published_points info = Some k ->
  objects c !! k = Some pts ->
  count (position (geometry pts)) = published_particleCount info ->
  component_quickCheck c =
  report_message (published_particleCount info) (Some (published_particleCount info))
    true true.
Proof.
  intros Hinfo Hg Hp Hobj Hcount. unfold component_quickCheck.
  rewrite Hinfo, Hg, Hp, Hobj, Hcount, Nat.eqb_refl. reflexivity.
Qed.

(** What the report for 2000 particles says. *)
Lemma report_of_2000 :
  report_message 2000 (Some 2000) true true =
  ("Particles: 2000" ++ newline ++ "position attribute count: 2000" ++ newline
   ++ "count matches: true" ++ newline ++ "points object present: true")%string.
Proof. vm_compute. reflexivity. Qed.

(** C8.  The self-check across a re-activation, with
    [particleCount = 2000] at mount.  Before the readiness timer of the
    first run fires, the alert is the not-ready message; after it fires,
    the alert is the report with position count 2000, "count matches" true
    and "points object present" true.  When a property then changes, the
    cleanup and the new run of the effect leave [readyInfo] as it was: the
    timer of the new run is still pending, yet the alert is again the
    report about the 2000 particles of the disposed geometry, not the
    not-ready message. *)
Theorem self_check_is_stale_after_reactivation (p p' : Props num)
    (random random' : nat -> num) (t0 t1 t2 t3 : num) :
  particleCount p = 2000 ->
  let c0 := mount_component p random t0 t1 in
  let c1 := component_timer c0 in
  let c2 := reactivate c1 p' random' t2 t3 in
  component_quickCheck c0 = not_ready_message /\
  component_quickCheck c1 = report_message 2000 (Some 2000) true true /\
  live_props c2 = p' /\
  pending_timers c2 = [{| published_particleCount := particleCount p';
                          published_geometry := Some 1;
                          published_points := Some 1 |}] /\
  component_quickCheck c2 = report_message 2000 (Some 2000) true true /\
  component_quickCheck c2 <> not_ready_message /\
  report_message 2000 (Some 2000) true true =
    ("Particles: 2000" ++ newline ++ "position attribute count: 2000" ++ newline
     ++ "count matches: true" ++ newline ++ "points object present: true")%string.
Proof.
  intros Hcount c0 c1 c2.
  set (info := {| published_particleCount := particleCount p;
                  published_geometry := Some 0;
                  published_points := Some 0 |}).
  assert (Hreport1 : component_quickCheck c1 = report_message 2000 (Some 2000) true true).
  { rewrite <- Hcount.
    apply (component_report c1 info 0 (points (mount p random t0 t1)));
      try reflexivity.
    apply mounted_count. }
  assert (Hreport2 : component_quickCheck c2 = report_message 2000 (Some 2000) true true).
  { rewrite <- Hcount.
    apply (component_report c2 info 0 (points (mount p random t0 t1)));
      try reflexivity.
    apply mounted_count. }
  split; [reflexivity|]. split; [exact Hreport1|].
  split; [reflexivity|]. split; [reflexivity|]. split; [exact Hreport2|].
  split; [|apply report_of_2000].
  rewrite Hreport2. intros Habs. symmetry in Habs.
  exact (not_ready_is_distinct _ _ _ _ Habs).
Qed.

End LifecycleFacts.

Section LifecycleAtWork.

Import Symbolic.

Lemma self_check_is_stale_after_reactivation_witness :
  let p := named_props 2000 in
  let p' := named_props 3000 in
  particleCount p = 2000 /\
  let c0 := mount_component p Draw (Name "t0") (Name "t1") in
  let c1 := component_timer c0 in
  let c2 := reactivate c1 p' Draw (Name "t2") (Name "t3") in
  component_quickCheck c0 = not_ready_message /\
  component_quickCheck c1 = report_message 2000 (Some 2000) true true /\
  live_props c2 = p' /\
  pending_timers c2 = [{| published_particleCount := particleCount p';
                          published_geometry := Some 1;
                          published_points := Some 1 |}] /\
  component_quickCheck c2 = report_message 2000 (Some 2000) true true /\
  component_quickCheck c2 <> not_ready_message /\
  report_message 2000 (Some 2000) true true =
    ("Particles: 2000" ++ newline ++ "position attribute count: 2000" ++ newline
     ++ "count matches: true" ++ newline ++ "points object present: true")%string.
Proof.
  intros p p'. split; [reflexivity|].
  exact (self_check_is_stale_after_reactivation p p' Draw Draw
           (Name "t0") (Name "t1") (Name "t2") (Name "t3") eq_refl).
Defined.

(** The same scenario, run: three particles, then a change to five. *)
Example stale_report_runs :
  let c1 := component_timer (mount_component (named_props 3) Draw (Name "t0") (Name "t1")) in
  let c2 := reactivate c1 (named_props 5) Draw (Name "t2") (Name "t3") in
  component_quickCheck c2 =
    ("Particles: 3" ++ newline ++ "position attribute count: 3" ++ newline
     ++ "count matches: true" ++ newline ++ "points object present: true")%string /\
  component_quickCheck (component_timer c2) =
    ("Particles: 5" ++ newline ++ "position attribute count: 5" ++ newline
     ++ "count matches: true" ++ newline ++ "points object present: true")%string.
Proof. vm_compute. split; reflexivity. Qed.

End LifecycleAtWork.
